(** * DoubleRange: the dual-thumb range slider, modelled and verified

    The development follows [src/double-range.ts].  A widget instance is a
    record holding the private fields of the class; every method is a
    function from the record to the record it leaves behind (explicit state
    passing).  The host environment the class talks to (the browser's timer
    table, the document-level listeners, the log of callback invocations) is
    kept in the same record, below the private fields.

    The code is embedded twice.

    The first embedding covers the whole class: binding, the mutators, the
    input handlers, the scheduler, teardown.  It idealises two things.  A
    JavaScript [number] is an exact rational [Q]: comparisons and arithmetic
    are exact, [NaN] and the infinities do not exist, and a division by zero
    is undefined ([Num.div]).  The before-change hooks are predicates on the
    pair [(from, to)] that do not call back into the instance.  It carries
    the properties of the control flow: the scheduler, the drag gesture,
    teardown, the registry.

    The second embedding, [Js] at the end of the file, keeps numbers and
    hooks as the code has them: IEEE doubles with [NaN], and hooks that may
    call the setters before they answer.  It covers the mutators and the
    track click, and carries the properties that depend on either.

    Time.  The debounce delay is not measured: a timer that has been armed
    may elapse at any later moment, which is an event of its own.

    Presentation (ARIA attributes, thumb positions, label texts) is written
    by the methods but never read back by them; those writes are left out of
    the value model.  The label layout is modelled on its own in [Layout]. *)

From Stdlib Require Import QArith Qround Qabs Lqa Lia List Bool.
From Stdlib Require Floats Uint63.
From stdpp Require Import gmap strings.
Local Open Scope Q_scope.

(** ** JavaScript numbers *)

Module Num.

Definition ltb (x y : Q) : bool := negb (Qle_bool y x).
Definition leb (x y : Q) : bool := Qle_bool x y.
Definition eqb (x y : Q) : bool := Qeq_bool x y.

(** [0] is the only falsy number of the model (NaN does not exist). *)
Definition truthy (x : Q) : bool := negb (Qeq_bool x 0).

(** [Math.round]: nearest integer, halves towards plus infinity. *)
Definition round (x : Q) : Q := inject_Z (Qfloor (x + (1 # 2))).

(** [x / y].  For [y = 0] JavaScript yields an infinity or NaN, which the
    model does not have: the quotient is then undefined. *)
Definition div (x y : Q) : option Q :=
  if Qeq_bool y 0 then None else Some (x / y).

Definition abs (x : Q) : Q := Qabs x.
Definition max (x y : Q) : Q := if leb x y then y else x.
Definition min (x y : Q) : Q := if leb x y then x else y.

Lemma ltb_spec x y : BoolSpec (x < y) (y <= x) (ltb x y).
Proof.
  unfold ltb. destruct (Qle_bool y x) eqn:E; simpl; constructor.
  - now apply Qle_bool_iff.
  - apply Qnot_le_lt. intros H. apply Qle_bool_iff in H. congruence.
Qed.

Lemma leb_spec x y : BoolSpec (x <= y) (y < x) (leb x y).
Proof.
  unfold leb. destruct (Qle_bool x y) eqn:E; constructor.
  - now apply Qle_bool_iff.
  - apply Qnot_le_lt. intros H. apply Qle_bool_iff in H. congruence.
Qed.

Lemma eqb_spec x y : BoolSpec (x == y) (~ x == y) (eqb x y).
Proof.
  unfold eqb. destruct (Qeq_bool x y) eqn:E; constructor.
  - now apply Qeq_bool_iff.
  - intros H. apply Qeq_bool_iff in H. congruence.
Qed.

End Num.

Infix "<?" := Num.ltb (at level 70, no associativity) : Q_scope.
Infix "<=?" := Num.leb (at level 70, no associativity) : Q_scope.
Infix "=?" := Num.eqb (at level 70, no associativity) : Q_scope.
Notation "x >? y" := (Num.ltb y x) (at level 70, only parsing) : Q_scope.
Notation "x >=? y" := (Num.leb y x) (at level 70, only parsing) : Q_scope.

(** Case analysis on every comparison of the goal, leaving the facts for
    [lra]. *)
Ltac cmp :=
  repeat match goal with
  | |- context [Num.ltb ?a ?b] => destruct (Num.ltb_spec a b)
  | |- context [Num.leb ?a ?b] => destruct (Num.leb_spec a b)
  | |- context [Num.eqb ?a ?b] => destruct (Num.eqb_spec a b)
  end; simpl.

(** ** The instance *)

Inductive ThumbType := Tfrom | Tto.

Record DOMRect := { rect_left : Q; rect_width : Q }.

(** A timer id of [window.setTimeout]; ids are positive, hence truthy. *)
Definition TimerId := positive.

Record DoubleRange := mkDoubleRange {
  (* private fields of the class *)
  destroyed : bool;
  callbackTimer : option TimerId;
  beforeFromChange : option (Q -> Q -> bool);
  beforeToChange : option (Q -> Q -> bool);
  minValue : Q;
  maxValue : Q;
  step : Q;
  fromValue : Q;
  toValue : Q;
  isDragging : option ThumbType;
  duringDrag : bool;
  trackRect : option DOMRect;
  divRect : option DOMRect;
  (* host environment, as far as this instance sees it *)
  dragListeners : bool;          (* mousemove/mouseup/touchmove/touchend on document *)
  observing : bool;              (* the ResizeObserver is connected *)
  isInitObservation : bool;      (* the observer has not reported yet *)
  pendingTimers : list TimerId;  (* armed timeouts that have not fired *)
  nextTimerId : TimerId;         (* the id the next setTimeout returns *)
  callbackLog : list (Q * Q)     (* invocations of the user callback, oldest first *)
}.

(** Field updates.  Each writes the named fields and copies the rest. *)

Definition set_values (mn mx f t : Q) (s : DoubleRange) : DoubleRange :=
  mkDoubleRange (destroyed s) (callbackTimer s) (beforeFromChange s)
    (beforeToChange s) mn mx (step s) f t (isDragging s) (duringDrag s)
    (trackRect s) (divRect s) (dragListeners s) (observing s)
    (isInitObservation s) (pendingTimers s) (nextTimerId s) (callbackLog s).

Definition set_minValue (v : Q) (s : DoubleRange) : DoubleRange :=
  set_values v (maxValue s) (fromValue s) (toValue s) s.
Definition set_maxValue (v : Q) (s : DoubleRange) : DoubleRange :=
  set_values (minValue s) v (fromValue s) (toValue s) s.
Definition set_fromValue (v : Q) (s : DoubleRange) : DoubleRange :=
  set_values (minValue s) (maxValue s) v (toValue s) s.
Definition set_toValue (v : Q) (s : DoubleRange) : DoubleRange :=
  set_values (minValue s) (maxValue s) (fromValue s) v s.

Definition set_timers (ct : option TimerId) (pend : list TimerId)
    (next : TimerId) (s : DoubleRange) : DoubleRange :=
  mkDoubleRange (destroyed s) ct (beforeFromChange s)
    (beforeToChange s) (minValue s) (maxValue s) (step s) (fromValue s)
    (toValue s) (isDragging s) (duringDrag s) (trackRect s) (divRect s)
    (dragListeners s) (observing s) (isInitObservation s) pend next
    (callbackLog s).

Definition set_drag (d : option ThumbType) (during listeners : bool)
    (s : DoubleRange) : DoubleRange :=
  mkDoubleRange (destroyed s) (callbackTimer s) (beforeFromChange s)
    (beforeToChange s) (minValue s) (maxValue s) (step s) (fromValue s)
    (toValue s) d during (trackRect s) (divRect s)
    listeners (observing s) (isInitObservation s) (pendingTimers s)
    (nextTimerId s) (callbackLog s).

Definition set_rects (tr dr : option DOMRect) (s : DoubleRange) : DoubleRange :=
  mkDoubleRange (destroyed s) (callbackTimer s) (beforeFromChange s)
    (beforeToChange s) (minValue s) (maxValue s) (step s) (fromValue s)
    (toValue s) (isDragging s) (duringDrag s) tr dr
    (dragListeners s) (observing s) (isInitObservation s) (pendingTimers s)
    (nextTimerId s) (callbackLog s).

Definition set_lifecycle (d obs init : bool) (s : DoubleRange) : DoubleRange :=
  mkDoubleRange d (callbackTimer s) (beforeFromChange s)
    (beforeToChange s) (minValue s) (maxValue s) (step s) (fromValue s)
    (toValue s) (isDragging s) (duringDrag s) (trackRect s) (divRect s)
    (dragListeners s) obs init (pendingTimers s) (nextTimerId s)
    (callbackLog s).

Definition set_callbackLog (l : list (Q * Q)) (s : DoubleRange) : DoubleRange :=
  mkDoubleRange (destroyed s) (callbackTimer s) (beforeFromChange s)
    (beforeToChange s) (minValue s) (maxValue s) (step s) (fromValue s)
    (toValue s) (isDragging s) (duringDrag s) (trackRect s) (divRect s)
    (dragListeners s) (observing s) (isInitObservation s) (pendingTimers s)
    (nextTimerId s) l.

(** ** The callback scheduler *)

(** [clearTimeout(id)]: the timer is taken out of the host's table; an id
    that is not armed (fired already, or cleared) is ignored. *)
Definition clearTimeout (id : TimerId) (s : DoubleRange) : DoubleRange :=
  set_timers (callbackTimer s)
    (List.filter (fun j => negb (Pos.eqb j id)) (pendingTimers s))
    (nextTimerId s) s.

(** [this.#callbackTimer = window.setTimeout(..., this.#delay)]. *)
Definition setTimeout (s : DoubleRange) : DoubleRange :=
  let id := nextTimerId s in
  set_timers (Some id) (pendingTimers s ++ [id]) (Pos.succ id) s.

(** [if (this.#callbackTimer) clearTimeout(this.#callbackTimer)]. *)
Definition clearCallbackTimer (s : DoubleRange) : DoubleRange :=
  match callbackTimer s with
  | Some id => clearTimeout id s
  | None => s
  end.

(** [#scheduleCallback()]. *)
Definition scheduleCallback (s : DoubleRange) : DoubleRange :=
  let s := clearCallbackTimer s in
  if duringDrag s then s else setTimeout s.

(** The host runs the function given to [setTimeout] when the delay of timer
    [id] has elapsed: the user callback is invoked with the values of that
    moment (and the [range-change] event is dispatched with the same pair).
    The user callback is taken not to call back into the instance. *)
Definition timerElapsed (id : TimerId) (s : DoubleRange) : DoubleRange :=
  if existsb (Pos.eqb id) (pendingTimers s) then
    set_callbackLog (callbackLog s ++ [(fromValue s, toValue s)])
      (set_timers (callbackTimer s)
         (List.filter (fun j => negb (Pos.eqb j id)) (pendingTimers s))
         (nextTimerId s) s)
  else s.

(** ** Public API: the validated mutators *)

Inductive Error := RangeError | TypeError | PlainError.

(** What a method that can throw leaves behind: the instance at the moment
    the method returns, or at the moment it throws. *)
Inductive Completion :=
| Return (s : DoubleRange)
| Throw (e : Error) (s : DoubleRange).

Definition state_of (c : Completion) : DoubleRange :=
  match c with Return s => s | Throw _ s => s end.

Definition throws (c : Completion) : bool :=
  match c with Return _ => false | Throw _ _ => true end.

Definition fire (fireCallback : bool) (s : DoubleRange) : DoubleRange :=
  if fireCallback then scheduleCallback s else s.

(** [setMin(min, fireCallback = true)]. *)
Definition setMin (s : DoubleRange) (min : Q) (fireCallback : bool) : Completion :=
  if min >=? maxValue s then Throw RangeError s
  else if min >? fromValue s then Throw RangeError s
  else Return (fire fireCallback (set_minValue min s)).

(** [setMax(max, fireCallback = true)]. *)
Definition setMax (s : DoubleRange) (max : Q) (fireCallback : bool) : Completion :=
  if max <=? minValue s then Throw RangeError s
  else if max <? toValue s then Throw RangeError s
  else Return (fire fireCallback (set_maxValue max s)).

(** The [return] statement a call of [setFrom]/[setTo] leaves through:
    [this], or one of the four [return false]. *)
Inductive Rejection :=
| OutOfRange   (* value < min || value > max *)
| Ordering     (* from >= to, resp. to <= from: after the corrective self-call *)
| SameAsTo     (* value === this.#toValue *)
| Vetoed.      (* the before-change hook returned false *)

Inductive Returned := This | False_ (why : Rejection).

(** A before-change hook is a predicate on the pair [(from, to)]; it is taken
    not to call back into the instance. *)
Definition vetoes (hook : option (Q -> Q -> bool)) (f t : Q) : bool :=
  match hook with
  | Some h => negb (h f t)
  | None => false
  end.

(** [setFrom(from, fireCallback = true)].  The method calls itself; [fuel]
    bounds the depth of the call stack, and [None] is the stack running out
    (JavaScript throws; nothing has been written at that point). *)
Fixpoint setFrom (fuel : nat) (s : DoubleRange) (from : Q) (fireCallback : bool)
    : option (DoubleRange * Returned) :=
  match fuel with
  | O => None
  | S fuel =>
    if (from <? minValue s) || (from >? maxValue s) then
      Some (s, False_ OutOfRange)
    else if from >=? toValue s then
      match setFrom fuel s (toValue s - step s) true with
      | Some (s', _) => Some (s', False_ Ordering)
      | None => None
      end
    else if from =? toValue s then
      Some (s, False_ SameAsTo)
    else if vetoes (beforeFromChange s) from (toValue s) then
      Some (s, False_ Vetoed)
    else
      Some (fire fireCallback (set_fromValue from s), This)
  end.

(** [setTo(to, fireCallback = true)]. *)
Fixpoint setTo (fuel : nat) (s : DoubleRange) (to : Q) (fireCallback : bool)
    : option (DoubleRange * Returned) :=
  match fuel with
  | O => None
  | S fuel =>
    if (to <? minValue s) || (to >? maxValue s) then
      Some (s, False_ OutOfRange)
    else if to <=? fromValue s then
      match setTo fuel s (fromValue s + step s) true with
      | Some (s', _) => Some (s', False_ Ordering)
      | None => None
      end
    else if to =? toValue s then
      Some (s, False_ SameAsTo)
    else if vetoes (beforeToChange s) (fromValue s) to then
      Some (s, False_ Vetoed)
    else
      Some (fire fireCallback (set_toValue to s), This)
  end.

(** The argument of [update]: any of the four keys may be missing. *)
Record UpdateOptions := {
  o_min : option Q;
  o_max : option Q;
  o_from : option Q;
  o_to : option Q
}.

(** [o[key] !== undefined ? o[key] : current[key]]. *)
Definition or_current (x : option Q) (current : Q) : Q :=
  match x with Some v => v | None => current end.

(** [update(o, fireCallback = true)], for a plain object [o]. *)
Definition update (s : DoubleRange) (o : UpdateOptions) (fireCallback : bool)
    : Completion :=
  let next_min := or_current (o_min o) (minValue s) in
  let next_max := or_current (o_max o) (maxValue s) in
  let next_from := or_current (o_from o) (fromValue s) in
  let next_to := or_current (o_to o) (toValue s) in
  if next_min >=? next_max then Throw RangeError s
  else if (next_from <? next_min) || (next_from >? next_max) then Throw RangeError s
  else if (next_to <? next_min) || (next_to >? next_max) then Throw RangeError s
  else if next_from >=? next_to then Throw RangeError s
  else Return (fire fireCallback (set_values next_min next_max next_from next_to s)).

Definition getFrom (s : DoubleRange) : Q := fromValue s.
Definition getTo (s : DoubleRange) : Q := toValue s.
Definition getMin (s : DoubleRange) : Q := minValue s.
Definition getMax (s : DoubleRange) : Q := maxValue s.
Definition getRange (s : DoubleRange) : Q * Q := (fromValue s, toValue s).

(** ** Interaction: drag, keyboard, track click *)

Inductive Key := ArrowLeft | ArrowDown | ArrowRight | ArrowUp | OtherKey.

(** What an input handler leaves: it returned, or the call stack ran out
    under it (an exception; nothing has been written), or it divided by
    zero, so that the number it went on with is not one of the model. *)
Inductive Outcome :=
| Done (s : DoubleRange)
| StackOverflow
| NotRational.

Definition called (r : option DoubleRange) : Outcome :=
  match r with Some s => Done s | None => StackOverflow end.

(** The three lines shared by [#trackClicked] and [#onDragMove]:
    [value = min + percent * (max - min)] and
    [snapped = Math.round((value - min) / step) * step + min]. *)
Definition snap (s : DoubleRange) (percent : Q) : option Q :=
  let value := minValue s + percent * (maxValue s - minValue s) in
  match Num.div (value - minValue s) (step s) with
  | Some q => Some (Num.round q * step s + minValue s)
  | None => None
  end.

(** [#getValue(type)]. *)
Definition getValue (s : DoubleRange) (type : ThumbType) : Q :=
  match type with Tfrom => fromValue s | Tto => toValue s end.

(** A call of a setter whose result is not looked at. *)
Definition dropped (r : option (DoubleRange * Returned)) : option DoubleRange :=
  match r with Some (s', _) => Some s' | None => None end.

(** [#setValue(type, value)]. *)
Definition setValue (fuel : nat) (s : DoubleRange) (type : ThumbType) (value : Q)
    : option DoubleRange :=
  match type with
  | Tfrom => dropped (setFrom fuel s value true)
  | Tto => dropped (setTo fuel s value true)
  end.

(** The candidate of [#trackClicked]: [percent] is not clamped. *)
Definition click_candidate (s : DoubleRange) (r : DOMRect) (clientX : Q)
    : option Q :=
  match Num.div (clientX - rect_left r) (rect_width r) with
  | Some percent => snap s percent
  | None => None
  end.

(** [#trackClicked(e)], with [clientX = e.clientX]. *)
Definition trackClicked (fuel : nat) (s : DoubleRange) (clientX : Q) : Outcome :=
  match trackRect s with
  | None => Done s
  | Some r =>
    match click_candidate s r clientX with
    | None => NotRational
    | Some snapped =>
      (* Decide which thumb to move *)
      if Num.abs (snapped - fromValue s) <? Num.abs (snapped - toValue s) then
        called (dropped (setFrom fuel s snapped true))
      else
        called (dropped (setTo fuel s snapped true))
    end
  end.

(** [#onDragStart(e, type, isTouch)]. *)
Definition onDragStart (s : DoubleRange) (type : ThumbType) : DoubleRange :=
  let s := set_drag (Some type) true (dragListeners s) s in
  let s := clearCallbackTimer s in
  set_drag (isDragging s) (duringDrag s) true s.

(** The candidate of [#onDragMove]: [percent] is clamped to [[0, 1]]. *)
Definition drag_candidate (s : DoubleRange) (r : DOMRect) (clientX : Q)
    : option Q :=
  match Num.div (clientX - rect_left r) (rect_width r) with
  | Some q => snap s (Num.max 0 (Num.min 1 q))
  | None => None
  end.

(** [#onDragMove(e)]; [clientX] is [e.clientX] of a mouse event and
    [e.touches?.[0]?.clientX || 0] of a touch event. *)
Definition onDragMove (fuel : nat) (s : DoubleRange) (clientX : Q) : Outcome :=
  match isDragging s, trackRect s with
  | Some type, Some r =>
    if negb (Num.truthy clientX) then Done s
    else
      match drag_candidate s r clientX with
      | None => NotRational
      | Some snapped => called (setValue fuel s type snapped)
      end
  | _, _ => Done s
  end.

(** [#onDragEnd()]. *)
Definition onDragEnd (s : DoubleRange) : DoubleRange :=
  match isDragging s with
  | None => s
  | Some _ => scheduleCallback (set_drag None false false s)
  end.

(** [#onKey(e, type)], with [key = e.key]. *)
Definition onKey (fuel : nat) (s : DoubleRange) (key : Key) (type : ThumbType)
    : option DoubleRange :=
  let step := step s in
  match key with
  | ArrowLeft | ArrowDown =>
    if getValue s type - step >=? minValue s then
      match setValue fuel s type (getValue s type - step) with
      | Some s' => Some (scheduleCallback s')
      | None => None
      end
    else Some s
  | ArrowRight | ArrowUp =>
    if getValue s type + step <=? maxValue s then
      match setValue fuel s type (getValue s type + step) with
      | Some s' => Some (scheduleCallback s')
      | None => None
      end
    else Some s
  | OtherKey => Some s
  end.

(** ** Lifecycle *)

(** [#setOuterRects()]: both rectangles are measured again (the label layout
    that follows writes presentation only). *)
Definition setOuterRects (s : DoubleRange) (track div : DOMRect) : DoubleRange :=
  set_rects (Some track) (Some div) s.

(** [destroy()], as far as the instance and its host go; the registry entry
    is removed in [World.destroy]. *)
Definition destroy (s : DoubleRange) : DoubleRange :=
  if destroyed s then s
  else
    let s := match isDragging s with Some _ => onDragEnd s | None => s end in
    let s := set_lifecycle (destroyed s) false (isInitObservation s) s in
    let s := match callbackTimer s with
             | Some id =>
               let s := clearTimeout id s in
               set_timers None (pendingTimers s) (nextTimerId s) s
             | None => s
             end in
    set_lifecycle true (observing s) (isInitObservation s) s.

(** The callback given to the [ResizeObserver]; [isConnected] is
    [this.#div.isConnected], [track] and [div] are what
    [getBoundingClientRect] returns at that moment. *)
Definition onObserved (s : DoubleRange) (isConnected : bool) (track div : DOMRect)
    : DoubleRange :=
  if isInitObservation s then set_lifecycle (destroyed s) (observing s) false s
  else if negb isConnected then destroy s
  else setOuterRects s track div.

(** ** The instance as a transition system

    Everything that can happen to a bound instance: a call of the public
    API, an input event delivered to one of its listeners, a report of the
    resize observer, a timeout of the host.  An event whose listener is not
    attached does nothing.  A handler that throws (a [RangeError] of a
    setter, the call stack running out) leaves the instance as it was when
    the exception was raised.  [handle] is undefined where the handler
    divides by zero. *)

Inductive Event :=
| Call_setMin (min : Q) (fireCallback : bool)
| Call_setMax (max : Q) (fireCallback : bool)
| Call_setFrom (from : Q) (fireCallback : bool)
| Call_setTo (to : Q) (fireCallback : bool)
| Call_update (o : UpdateOptions) (fireCallback : bool)
| Call_destroy
| ThumbDown (type : ThumbType)            (* mousedown / touchstart on a thumb *)
| PointerMove (clientX : Q)               (* mousemove / touchmove on document *)
| PointerUp                               (* mouseup / touchend on document *)
| KeyDown (type : ThumbType) (key : Key)  (* keydown on a thumb *)
| TrackClick (clientX : Q)                (* click on the track *)
| Observed (isConnected : bool) (track div : DOMRect)
| Timeout (id : TimerId).

Definition settle (s : DoubleRange) (o : Outcome) : option DoubleRange :=
  match o with
  | Done s' => Some s'
  | StackOverflow => Some s
  | NotRational => None
  end.

Definition handle (fuel : nat) (s : DoubleRange) (e : Event) : option DoubleRange :=
  match e with
  | Call_setMin v f => Some (state_of (setMin s v f))
  | Call_setMax v f => Some (state_of (setMax s v f))
  | Call_setFrom v f =>
      match setFrom fuel s v f with Some (s', _) => Some s' | None => Some s end
  | Call_setTo v f =>
      match setTo fuel s v f with Some (s', _) => Some s' | None => Some s end
  | Call_update o f => Some (state_of (update s o f))
  | Call_destroy => Some (destroy s)
  | ThumbDown type => Some (if destroyed s then s else onDragStart s type)
  | PointerMove x =>
      if dragListeners s then settle s (onDragMove fuel s x) else Some s
  | PointerUp => Some (if dragListeners s then onDragEnd s else s)
  | KeyDown type key =>
      if destroyed s then Some s else settle s (called (onKey fuel s key type))
  | TrackClick x =>
      if destroyed s then Some s else settle s (trackClicked fuel s x)
  | Observed c track div =>
      Some (if observing s then onObserved s c track div else s)
  | Timeout id => Some (timerElapsed id s)
  end.

Fixpoint run (fuel : nat) (s : DoubleRange) (es : list Event)
    : option DoubleRange :=
  match es with
  | [] => Some s
  | e :: es =>
    match handle fuel s e with
    | Some s' => run fuel s' es
    | None => None
    end
  end.

(** The events under which a track stays measurable. *)
Definition measurable (e : Event) : Prop :=
  match e with
  | Observed _ track _ => ~ rect_width track == 0
  | _ => True
  end.

(** ** Binding: the document, the registry, the constructor

    The page is modelled as far as the constructor reads it: which elements
    a selector matches, and for each host element the structure found under
    it.  Elements are identified by a number.  The static [WeakMap] of the
    class is a finite map from elements to instances; an instance is named
    by its position in the list of all instances ever constructed. *)

Module World.

Definition Elem := positive.
Definition InstId := nat.

(** What the constructor finds under a host element. *)
Record Markup := {
  div : option Elem;              (* container.querySelector('.double-range') *)
  requiredElements : bool;        (* thumbs, track, labels and their spans *)
  aria_valuemin : option Q;       (* on .thumb.from; None: absent or empty,
                                     Some q: its text parses to q *)
  aria_valuemax : option Q;       (* on .thumb.from *)
  aria_valuenow_from : option Q;  (* on .thumb.from *)
  aria_valuenow_to : option Q     (* on .thumb.to *)
}.

Record Document := {
  querySelectorAll : string -> list Elem;
  content : gmap Elem Markup;     (* no entry: an empty element *)
  freshElem : Elem;               (* the next element the page creates *)
  trackBox : Elem -> DOMRect;     (* getBoundingClientRect of a host's track *)
  divBox : Elem -> DOMRect        (* getBoundingClientRect of a host's .double-range *)
}.

(** The configuration object.  The type of the source makes the five
    numbers mandatory; [create] checks that at run time and the constructor
    copes with their absence, so they are optional here.  [delay],
    [formatter] and [label] concern timing and presentation only. *)
Record DoubleRangeConfig := {
  selector : string;
  c_min : option Q;
  c_max : option Q;
  c_from : option Q;
  c_to : option Q;
  c_step : option Q;
  c_callback : bool;              (* typeof o.callback === 'function' *)
  c_beforeFromChange : option (Q -> Q -> bool);
  c_beforeToChange : option (Q -> Q -> bool)
}.

Record World := {
  document : Document;
  counter : nat;                          (* DoubleRange.#counter *)
  map : gmap Elem InstId;                 (* DoubleRange.#map *)
  instances : list (Elem * DoubleRange)   (* each with its #div *)
}.

Inductive Result (A : Type) :=
| Ok (a : A)
| Raise (e : Error).
Arguments Ok {A} a.
Arguments Raise {A} e.

(** [DoubleRange.#getElement(selector)]. *)
Definition getElement (d : Document) (sel : string) : Result Elem :=
  match querySelectorAll d sel with
  | [] => Raise PlainError
  | [el] => Ok el
  | _ :: _ :: _ => Raise PlainError
  end.

(** [parseFloat(x || dflt)] for an attribute value [x]. *)
Definition attr_or (x : option Q) (dflt : Q) : Q :=
  match x with Some v => v | None => dflt end.

(** [a || b || c] as the constructor uses it. *)
Definition first_truthy (a : Q) (b : option Q) (c : Q) : Q :=
  if Num.truthy a then a
  else match b with
       | Some v => if Num.truthy v then v else c
       | None => c
       end.

(** The fields of a freshly constructed instance. *)
Definition fresh_instance (o : DoubleRangeConfig) (mn mx st f t : Q)
    (track dv : DOMRect) : DoubleRange :=
  {| destroyed := false;
     callbackTimer := None;
     beforeFromChange := c_beforeFromChange o;
     beforeToChange := c_beforeToChange o;
     minValue := mn; maxValue := mx; step := st;
     fromValue := f; toValue := t;
     isDragging := None; duringDrag := false;
     trackRect := Some track; divRect := Some dv;
     dragListeners := false;
     observing := true; isInitObservation := true;
     pendingTimers := []; nextTimerId := 1%positive;
     callbackLog := [] |}.

Definition with_instance (w : World) (dv : Elem) (s : DoubleRange) : World :=
  {| document := document w;
     counter := counter w;
     map := <[dv := length (instances w)]> (map w);
     instances := instances w ++ [(dv, s)] |}.

(** [new DoubleRange(o)]: attach to the structure under the element the
    selector names.  Returns the world it leaves and the new instance. *)
Definition new_DoubleRange (w : World) (o : DoubleRangeConfig)
    : World * Result InstId :=
  if negb (c_callback o) then (w, Raise TypeError) else
  match getElement (document w) (selector o) with
  | Raise e => (w, Raise e)
  | Ok container =>
    (* Prevent double initialization *)
    if decide (is_Some (map w !! container)) then (w, Raise PlainError) else
    match content (document w) !! container with
    | None => (w, Raise PlainError)
    | Some m =>
      match div m with
      | None => (w, Raise PlainError)
      | Some dv =>
        if negb (requiredElements m) then (w, Raise PlainError) else
        let mn := attr_or (aria_valuemin m) 0 in
        let mx := attr_or (aria_valuemax m) 100 in
        let st := match c_step o with Some v => v | None => 1 end in
        let f := first_truthy (attr_or (aria_valuenow_from m) 0) (c_from o) mn in
        let t := first_truthy (attr_or (aria_valuenow_to m) 100) (c_to o) mx in
        if f >=? t then (w, Raise PlainError) else
        let s := fresh_instance o mn mx st f t
                   (trackBox (document w) container)
                   (divBox (document w) container) in
        (with_instance w dv s, Ok (length (instances w)))
      end
    end
  end.

(** The structure [create] writes into the host element. *)
Definition generated (dv : Elem) (mn mx f t : Q) : Markup :=
  {| div := Some dv; requiredElements := true;
     aria_valuemin := Some mn; aria_valuemax := Some mx;
     aria_valuenow_from := Some f; aria_valuenow_to := Some t |}.

Definition bump (w : World) : World :=
  {| document := document w; counter := S (counter w);
     map := map w; instances := instances w |}.

Definition write (w : World) (el : Elem) (m : Markup) : World :=
  {| document :=
       {| querySelectorAll := querySelectorAll (document w);
          content := <[el := m]> (content (document w));
          freshElem := Pos.succ (freshElem (document w));
          trackBox := trackBox (document w);
          divBox := divBox (document w) |};
     counter := counter w; map := map w; instances := instances w |}.

(** [DoubleRange.create(o)]: check the configuration, generate the
    structure, attach. *)
Definition create (w : World) (o : DoubleRangeConfig) : World * Result InstId :=
  match c_min o, c_max o, c_from o, c_to o, c_step o with
  | Some mn, Some mx, Some f, Some t, Some _ =>
    if (f <? mn) || (f >? mx) then (w, Raise RangeError)
    else if (t <? mn) || (t >? mx) then (w, Raise RangeError)
    else if f >=? t then (w, Raise RangeError)
    else if negb (c_callback o) then (w, Raise TypeError)
    else
      let w := bump w in
      match getElement (document w) (selector o) with
      | Raise e => (w, Raise e)
      | Ok el =>
        let w := write w el (generated (freshElem (document w)) mn mx f t) in
        new_DoubleRange w o
      end
  | _, _, _, _, _ => (w, Raise TypeError)
  end.

(** The instance a result names. *)
Definition instance (w : World) (r : Result InstId) : option DoubleRange :=
  match r with
  | Ok id => snd <$> instances w !! id
  | Raise _ => None
  end.

(** [destroy()] of instance [id]: the instance is torn down and its
    registry entry removed; a second call does nothing. *)
Definition destroy (w : World) (id : InstId) : World :=
  match instances w !! id with
  | None => w
  | Some (dv, s) =>
    if destroyed s then w
    else
      {| document := document w; counter := counter w;
         map := delete dv (map w);
         instances := <[id := (dv, destroy s)]> (instances w) |}
  end.

(** [DoubleRange.getByContainer(container)]. *)
Definition getByContainer (w : World) (container : Elem) : option InstId :=
  match content (document w) !! container with
  | Some m => match div m with
              | Some dv => map w !! dv
              | None => None
              end
  | None => None
  end.

(** [DoubleRange.getBySelector(selector)]. *)
Definition getBySelector (w : World) (sel : string) : Result (option InstId) :=
  match getElement (document w) sel with
  | Raise e => Raise e
  | Ok container => Ok (getByContainer w container)
  end.

End World.

(** ** Label layout *)

Module Layout.

(** Modelled from the spec: the style sheet that positions the labels is
    not part of the sources.  Following section 4.3 ("shift each label away
    from the other", "shift it left by the overflow amount"), a label whose
    [left] is [calc(P% + d px)] is rendered [d] pixels to the right of
    where [left: P%] renders it, with the same width.  [nominal] is the
    box the label has at [left: P%]. *)
Definition getBoundingClientRect (nominal : DOMRect) (shift : Q) : DOMRect :=
  {| rect_left := rect_left nominal + shift;
     rect_width := rect_width nominal |}.

Definition right (r : DOMRect) : Q := rect_left r + rect_width r.

(** What a layout pass leaves: the pixel corrections accumulated in the
    [left] of either label, and the collision flag. *)
Record Placement := {
  fromX : Q;
  toX : Q;
  hasLabelsCollision : bool
}.

(** [#updateFromToLabels()], from "Get bounding rects" on, for a non-null
    formatter.  [visible] is [fromLabel.offsetParent && toLabel.offsetParent]. *)
Definition updateFromToLabels (divRect : option DOMRect) (visible : bool)
    (fromLabel toLabel : DOMRect) : Placement :=
  let fromX := 0 in
  let toX := 0 in
  if negb visible then
    {| fromX := fromX; toX := toX; hasLabelsCollision := false |}
  else
  let fromRect := getBoundingClientRect fromLabel fromX in
  let toRect := getBoundingClientRect toLabel toX in
  (* case: labels collide *)
  let collisionWidth := rect_left fromRect + rect_width fromRect - rect_left toRect in
  let '(fromX, toX, collision, fromRect, toRect) :=
    if collisionWidth >? 0 then
      let fromX := fromX - collisionWidth / 2 in
      let toX := toX + collisionWidth / 2 in
      (fromX, toX, true,
       getBoundingClientRect fromLabel fromX,
       getBoundingClientRect toLabel toX)
    else (fromX, toX, false, fromRect, toRect) in
  match divRect with
  | None => {| fromX := fromX; toX := toX; hasLabelsCollision := collision |}
  | Some divRect =>
    (* case: toLabel overflows right *)
    let realLeft := rect_left toRect - rect_left divRect in
    let rightOverflow := realLeft + rect_width toRect - rect_width divRect in
    let '(fromX, toX, collision) :=
      if rightOverflow >? 0 then
        let toX := toX - rightOverflow in
        let realLeft := rect_left fromRect - rect_left divRect in
        let fromCollision :=
          (realLeft + rect_width fromRect)
          - (rect_width divRect - rect_width toRect) in
        if fromCollision >? 0 then (fromX - fromCollision, toX, true)
        else (fromX, toX, collision)
      else (fromX, toX, collision) in
    (* case: fromLabel overflows left *)
    let realLeft := rect_left fromRect - rect_left divRect in
    if realLeft <? 0 then
      let fromX := fromX + (-1 * realLeft) in
      let realLeft := rect_left toRect - rect_left divRect in
      if realLeft <? rect_width fromRect then
        {| fromX := fromX;
           toX := toX + (rect_width fromRect - realLeft);
           hasLabelsCollision := true |}
      else {| fromX := fromX; toX := toX; hasLabelsCollision := collision |}
    else {| fromX := fromX; toX := toX; hasLabelsCollision := collision |}
  end.

(** The boxes the two labels are rendered in after the pass. *)
Definition fromBox (p : Placement) (fromLabel : DOMRect) : DOMRect :=
  getBoundingClientRect fromLabel (fromX p).
Definition toBox (p : Placement) (toLabel : DOMRect) : DOMRect :=
  getBoundingClientRect toLabel (toX p).

(** A box lies within the container. *)
Definition within (container box : DOMRect) : Prop :=
  rect_left container <= rect_left box
  /\ right box <= right container.

(** The two label boxes lie within the container and do not overlap. *)
Definition contained (container fromB toB : DOMRect) : Prop :=
  within container fromB /\ within container toB /\ right fromB <= rect_left toB.

End Layout.

(** * Properties *)

(** ** The ordering invariant *)

Definition ordered (s : DoubleRange) : Prop :=
  minValue s < maxValue s
  /\ minValue s <= fromValue s
  /\ fromValue s < toValue s
  /\ toValue s <= maxValue s.

(** Two instances agree on everything but the timer bookkeeping. *)
Definition same_but_timers (s s' : DoubleRange) : Prop :=
  set_timers (callbackTimer s) (pendingTimers s) (nextTimerId s) s' = s.

Lemma same_but_timers_refl s : same_but_timers s s.
Proof. destruct s; reflexivity. Qed.

Lemma clearCallbackTimer_same s : same_but_timers s (clearCallbackTimer s).
Proof. unfold clearCallbackTimer. destruct s as [? [?|]]; reflexivity. Qed.

Lemma scheduleCallback_same s : same_but_timers s (scheduleCallback s).
Proof.
  unfold scheduleCallback, clearCallbackTimer.
  destruct s as [? [?|] ? ? ? ? ? ? ? ? []]; reflexivity.
Qed.

Lemma fire_same b s : same_but_timers s (fire b s).
Proof. destruct b; [apply scheduleCallback_same | apply same_but_timers_refl]. Qed.

(** The fields two such instances share. *)
Lemma same_but_timers_fields s s' :
  same_but_timers s s' ->
  minValue s' = minValue s /\ maxValue s' = maxValue s
  /\ fromValue s' = fromValue s /\ toValue s' = toValue s
  /\ step s' = step s
  /\ beforeFromChange s' = beforeFromChange s
  /\ beforeToChange s' = beforeToChange s
  /\ isDragging s' = isDragging s /\ duringDrag s' = duringDrag s
  /\ dragListeners s' = dragListeners s
  /\ destroyed s' = destroyed s /\ observing s' = observing s
  /\ isInitObservation s' = isInitObservation s
  /\ trackRect s' = trackRect s /\ divRect s' = divRect s
  /\ callbackLog s' = callbackLog s.
Proof.
  unfold same_but_timers. intros <-. destruct s'; simpl. repeat split.
Qed.

(** *** What a call of [setFrom] or [setTo] can do

    Whatever the depth of the self-call, a completed call has either left
    the instance alone or written one accepted value and (maybe) scheduled
    the callback. *)

Definition from_accepted (s : DoubleRange) (v : Q) : Prop :=
  minValue s <= v /\ v <= maxValue s /\ v < toValue s
  /\ vetoes (beforeFromChange s) v (toValue s) = false.

Definition to_accepted (s : DoubleRange) (v : Q) : Prop :=
  minValue s <= v /\ v <= maxValue s /\ fromValue s < v
  /\ ~ v == toValue s
  /\ vetoes (beforeToChange s) (fromValue s) v = false.

Lemma setFrom_shape fuel : forall s v f s' r,
  setFrom fuel s v f = Some (s', r) ->
  (s' = s /\ r <> This)
  \/ exists v' b, from_accepted s v' /\ s' = fire b (set_fromValue v' s)
                  /\ (r = This -> v' = v /\ b = f).
Proof.
  induction fuel as [|fuel IH]; intros s v f s' r; simpl; [discriminate|].
  destruct (Num.ltb_spec v (minValue s)); simpl.
  { intros [= <- <-]. left. split; [reflexivity | discriminate]. }
  destruct (Num.ltb_spec (maxValue s) v); simpl.
  { intros [= <- <-]. left. split; [reflexivity | discriminate]. }
  destruct (Num.leb_spec (toValue s) v).
  { destruct (setFrom fuel s (toValue s - step s) true) as [[s1 r1]|] eqn:E;
      [|discriminate].
    intros [= <- <-]. apply IH in E as [[-> _]|(v' & b & Hacc & -> & _)].
    - left. split; [reflexivity | discriminate].
    - right. exists v', b. repeat split; try apply Hacc; discriminate. }
  destruct (Num.eqb_spec v (toValue s)).
  { intros [= <- <-]. left. split; [reflexivity | discriminate]. }
  destruct (vetoes (beforeFromChange s) v (toValue s)) eqn:V.
  { intros [= <- <-]. left. split; [reflexivity | discriminate]. }
  intros [= <- <-]. right. exists v, f. repeat split; assumption.
Qed.

Lemma setTo_shape fuel : forall s v f s' r,
  setTo fuel s v f = Some (s', r) ->
  (s' = s /\ r <> This)
  \/ exists v' b, to_accepted s v' /\ s' = fire b (set_toValue v' s)
                  /\ (r = This -> v' = v /\ b = f).
Proof.
  induction fuel as [|fuel IH]; intros s v f s' r; simpl; [discriminate|].
  destruct (Num.ltb_spec v (minValue s)); simpl.
  { intros [= <- <-]. left. split; [reflexivity | discriminate]. }
  destruct (Num.ltb_spec (maxValue s) v); simpl.
  { intros [= <- <-]. left. split; [reflexivity | discriminate]. }
  destruct (Num.leb_spec v (fromValue s)).
  { destruct (setTo fuel s (fromValue s + step s) true) as [[s1 r1]|] eqn:E;
      [|discriminate].
    intros [= <- <-]. apply IH in E as [[-> _]|(v' & b & Hacc & -> & _)].
    - left. split; [reflexivity | discriminate].
    - right. exists v', b. repeat split; try apply Hacc; discriminate. }
  destruct (Num.eqb_spec v (toValue s)).
  { intros [= <- <-]. left. split; [reflexivity | discriminate]. }
  destruct (vetoes (beforeToChange s) (fromValue s) v) eqn:V.
  { intros [= <- <-]. left. split; [reflexivity | discriminate]. }
  intros [= <- <-]. right. exists v, f. repeat split; assumption.
Qed.

(** *** Calls that return at once *)

Lemma setFrom_out_of_range n s v f :
  v < minValue s \/ maxValue s < v ->
  setFrom (S n) s v f = Some (s, False_ OutOfRange).
Proof. intros H. simpl. cmp; try reflexivity; exfalso; lra. Qed.

Lemma setTo_out_of_range n s v f :
  v < minValue s \/ maxValue s < v ->
  setTo (S n) s v f = Some (s, False_ OutOfRange).
Proof. intros H. simpl. cmp; try reflexivity; exfalso; lra. Qed.




(** *** A sample instance

    The slider of the header of the source: [min: 0, max: 100, step: 5],
    with the values and hooks given. *)

Definition sample_track : DOMRect := {| rect_left := 0; rect_width := 100 |}.

Definition sample (hookFrom hookTo : option (Q -> Q -> bool)) (st f t : Q)
    : DoubleRange :=
  {| destroyed := false; callbackTimer := None;
     beforeFromChange := hookFrom; beforeToChange := hookTo;
     minValue := 0; maxValue := 100; step := st;
     fromValue := f; toValue := t;
     isDragging := None; duringDrag := false;
     trackRect := Some sample_track; divRect := Some sample_track;
     dragListeners := false; observing := true; isInitObservation := true;
     pendingTimers := []; nextTimerId := 1%positive; callbackLog := [] |}.

Definition price_slider : DoubleRange := sample None None 5 20 80.

(** A host whose structure is complete but carries no ARIA attributes. *)
Definition bare_markup : World.Markup :=
  {| World.div := Some 2%positive; World.requiredElements := true;
     World.aria_valuemin := None; World.aria_valuemax := None;
     World.aria_valuenow_from := None; World.aria_valuenow_to := None |}.

(** A page on which [#my-slider] names element [1], whose content is [m]. *)
Definition page_with (m : World.Markup) : World.Document :=
  {| World.querySelectorAll :=
       fun sel => if String.eqb sel "#my-slider" then [1%positive] else [];
     World.content := {[ 1%positive := m ]};
     World.freshElem := 3%positive;
     World.trackBox := fun _ => sample_track;
     World.divBox := fun _ => sample_track |}.

Definition world_with (m : World.Markup) : World.World :=
  {| World.document := page_with m; World.counter := 0%nat;
     World.map := ∅; World.instances := [] |}.

Definition config (hookFrom hookTo : option (Q -> Q -> bool))
    (mn mx f t st : Q) : World.DoubleRangeConfig :=
  {| World.selector := "#my-slider";
     World.c_min := Some mn; World.c_max := Some mx;
     World.c_from := Some f; World.c_to := Some t; World.c_step := Some st;
     World.c_callback := true;
     World.c_beforeFromChange := hookFrom; World.c_beforeToChange := hookTo |}.

(** The instance [DoubleRange.create(o)] returns on that page. *)
Definition created (o : World.DoubleRangeConfig) : option DoubleRange :=
  let '(w, r) := World.create (world_with bare_markup) o in
  World.instance w r.

(** The samples used below are instances [create] returns. *)
Lemma samples_created :
  created (config None None 0 100 20 80 5) = Some price_slider
  /\ created (config None None 0 100 20 80 1) = Some (sample None None 1 20 80)
  /\ created (config None None 0 100 1 3 5) = Some (sample None None 5 1 3)
  /\ created (config None None 0 100 20 60 5) = Some (sample None None 5 20 60)
  /\ created (config None None 0 100 5 80 5) = Some (sample None None 5 5 80)
  /\ (forall hook, created (config (Some hook) None 0 100 20 80 5)
                   = Some (sample (Some hook) None 5 20 80)).
Proof. repeat split. Qed.

(** ** C10: [setTo] rejects its own current value; the twin branch of
    [setFrom] is dead *)

Lemma setFrom_never_SameAsTo fuel : forall s v f s' r,
  setFrom fuel s v f = Some (s', r) -> r <> False_ SameAsTo.
Proof.
  induction fuel as [|fuel IH]; intros s v f s' r; simpl; [discriminate|].
  destruct ((v <? minValue s) || (v >? maxValue s)).
  { intros [= <- <-]. discriminate. }
  destruct (Num.leb_spec (toValue s) v) as [Hge|Hlt].
  { destruct (setFrom fuel s (toValue s - step s) true) as [[s1 r1]|];
      intros [= <- <-]. discriminate. }
  destruct (Num.eqb_spec v (toValue s)) as [Heq|Hne].
  { exfalso. lra. }
  destruct (vetoes (beforeFromChange s) v (toValue s));
    intros [= <- <-]; discriminate.
Qed.

(** C10.  [setTo(v)] with [v] equal to the current [to] returns [false] and
    leaves the instance untouched (no value written, no timer cleared or
    armed); when [v] lies within [[min, max]] it leaves through the
    [to === this.#toValue] branch, although [v > from].  No call of
    [setFrom] ever leaves through its [from === this.#toValue] branch. *)
Theorem setTo_current_value_rejected n s v f :
  v == toValue s -> fromValue s < toValue s ->
  (exists why, setTo (S n) s v f = Some (s, False_ why))
  /\ (minValue s <= v <= maxValue s ->
      setTo (S n) s v f = Some (s, False_ SameAsTo))
  /\ (forall fuel s0 v0 f0 s' r,
        setFrom fuel s0 v0 f0 = Some (s', r) -> r <> False_ SameAsTo).
Proof.
  intros Heq Hlt. repeat split.
  - simpl. cmp; eauto; try contradiction; exfalso; lra.
  - intros [H1 H2]. simpl. cmp; try reflexivity; try contradiction; exfalso; lra.
  - intros fuel. apply setFrom_never_SameAsTo.
Qed.

Lemma setTo_current_value_rejected_witness :
  setTo 1 price_slider 80 true = Some (price_slider, False_ SameAsTo).
Proof.
  apply (setTo_current_value_rejected 0 price_slider 80 true);
    [reflexivity | reflexivity | split; discriminate].
Defined.

(** ** The corrective self-call *)



(** With a step that is not positive the self-call repeats itself for ever:
    the call stack runs out whatever its depth. *)
Lemma setFrom_diverges fuel : forall s v f,
  step s <= 0 -> minValue s <= toValue s -> toValue s - step s <= maxValue s ->
  minValue s <= v -> v <= maxValue s -> toValue s <= v ->
  setFrom fuel s v f = None.
Proof.
  induction fuel as [|fuel IH]; intros s v f Hs H1 H2 H3 H4 H5; simpl;
    [reflexivity|].
  rewrite (IH s (toValue s - step s) true) by lra.
  cmp; try reflexivity; exfalso; lra.
Qed.


(** ** Division *)



Lemma div_defined x y : ~ y == 0 -> Num.div x y = Some (x / y).
Proof.
  intros H. unfold Num.div. destruct (Qeq_bool y 0) eqn:E; [|reflexivity].
  apply Qeq_bool_iff in E. contradiction.
Qed.

(** ** C9: the label boxes after a layout pass *)

(** The claim as it stands fails when the labels cannot fit side by side: in
    a container of width [100], two labels of width [80] at nominal
    positions [10] and [30] (their widths exceed the distance between them)
    end up in [[-40, 40]] and [[40, 120]]. *)
Lemma labels_contained_counterexample :
  let container := {| rect_left := 0; rect_width := 100 |} in
  let fromLabel := {| rect_left := 10; rect_width := 80 |} in
  let toLabel := {| rect_left := 30; rect_width := 80 |} in
  let p := Layout.updateFromToLabels (Some container) true fromLabel toLabel in
  rect_width fromLabel + rect_width toLabel
    > rect_left toLabel - rect_left fromLabel
  /\ rect_left (Layout.fromBox p fromLabel) == -40
  /\ Layout.right (Layout.toBox p toLabel) == 120
  /\ ~ Layout.contained container
         (Layout.fromBox p fromLabel) (Layout.toBox p toLabel).
Proof.
  simpl. repeat split.
  intros ((H & _) & _). vm_compute in H. apply H. reflexivity.
Qed.

(** C9 (amended).  For two rendered labels whose widths are not negative
    and together do not exceed the width of the container, the fixed-order
    passes (centre collision, right overflow, left overflow) leave both
    label boxes within the container and not overlapping, wherever the
    nominal positions put them. *)
Theorem labels_contained container fromLabel toLabel :
  0 <= rect_width fromLabel -> 0 <= rect_width toLabel ->
  rect_width fromLabel + rect_width toLabel <= rect_width container ->
  let p := Layout.updateFromToLabels (Some container) true fromLabel toLabel in
  Layout.contained container
    (Layout.fromBox p fromLabel) (Layout.toBox p toLabel).
Proof.
  destruct container as [D W], fromLabel as [F wf], toLabel as [T wt].
  simpl. intros Hf Ht Hfit.
  unfold Layout.updateFromToLabels, Layout.contained, Layout.within,
    Layout.fromBox, Layout.toBox, Layout.right, Layout.getBoundingClientRect.
  simpl.
  match goal with
  | |- context [?a / 2] =>
    set (half := a / 2) in *;
    assert (half == a * (1 # 2)) by (unfold half; field);
    clearbody half
  end.
  destruct (Num.ltb_spec 0 (F + 0 + wf - (T + 0))); simpl;
    match goal with
    | |- context [Num.ltb 0 ?a] => destruct (Num.ltb_spec 0 a); simpl
    end;
    repeat match goal with
    | |- context [Num.ltb ?a ?b] => destruct (Num.ltb_spec a b); simpl
    end;
    repeat split; lra.
Qed.

Lemma labels_contained_witness :
  let container := {| rect_left := 0; rect_width := 100 |} in
  let fromLabel := {| rect_left := 40; rect_width := 30 |} in
  let toLabel := {| rect_left := 50; rect_width := 30 |} in
  let p := Layout.updateFromToLabels (Some container) true fromLabel toLabel in
  Layout.contained container
    (Layout.fromBox p fromLabel) (Layout.toBox p toLabel).
Proof.
  apply (labels_contained {| rect_left := 0; rect_width := 100 |}
           {| rect_left := 40; rect_width := 30 |}
           {| rect_left := 50; rect_width := 30 |}); discriminate.
Defined.

(** ** What an event can do to the instance *)

Definition values (s : DoubleRange) : Q * Q * Q * Q :=
  (minValue s, maxValue s, fromValue s, toValue s).

Lemma ordered_values s s' : values s' = values s -> ordered s -> ordered s'.
Proof. unfold values, ordered. now intros [= -> -> -> ->]. Qed.

Lemma same_but_timers_values s s' : same_but_timers s s' -> values s' = values s.
Proof.
  intros H. unfold values.
  apply same_but_timers_fields in H as (-> & -> & -> & -> & _).
  reflexivity.
Qed.

Lemma fire_values b s : values (fire b s) = values s.
Proof. apply same_but_timers_values, fire_same. Qed.

(** How the instance can look after a public mutator or an input handler
    has run: untouched, or with values that passed the checks of a mutator
    and possibly a fresh schedule. *)
Inductive touched (s : DoubleRange) : DoubleRange -> Prop :=
| touched_not : touched s s
| touched_values a b c d f :
    (ordered s -> ordered (set_values a b c d s)) ->
    touched s (fire f (set_values a b c d s))
| touched_again s1 s2 : touched s s1 -> touched s1 s2 -> touched s s2.

Lemma touched_ordered s s' : touched s s' -> ordered s -> ordered s'.
Proof.
  induction 1; auto.
  intros O. eapply ordered_values; [apply fire_values | auto].
Qed.

(** A mutator leaves everything but the four values and the timers alone. *)
Definition untouched_rest (s s' : DoubleRange) : Prop :=
  step s' = step s
  /\ isDragging s' = isDragging s /\ duringDrag s' = duringDrag s
  /\ dragListeners s' = dragListeners s
  /\ destroyed s' = destroyed s
  /\ trackRect s' = trackRect s
  /\ callbackLog s' = callbackLog s.

Lemma touched_rest s s' : touched s s' -> untouched_rest s s'.
Proof.
  induction 1.
  - repeat split.
  - pose proof (fire_same f (set_values a b c d s)) as S.
    apply same_but_timers_fields in S
      as (_&_&_&_& St &_&_& I & D & L & Dd &_&_& T &_& Lg).
    unfold untouched_rest. rewrite St, I, D, L, Dd, T, Lg.
    destruct s; repeat split.
  - destruct IHtouched1 as (?&?&?&?&?&?&?), IHtouched2 as (?&?&?&?&?&?&?).
    repeat split; congruence.
Qed.

Lemma setFrom_touched fuel s v f s' r :
  setFrom fuel s v f = Some (s', r) -> touched s s'.
Proof.
  intros H.
  apply setFrom_shape in H as [[-> _]|(v' & b & (A1 & A2 & A3 & _) & -> & _)];
    [constructor|].
  apply touched_values. intros (H1 & H2 & H3 & H4). repeat split; assumption.
Qed.

Lemma setTo_touched fuel s v f s' r :
  setTo fuel s v f = Some (s', r) -> touched s s'.
Proof.
  intros H.
  apply setTo_shape in H as [[-> _]|(v' & b & (A1 & A2 & A3 & _) & -> & _)];
    [constructor|].
  apply touched_values. intros (H1 & H2 & H3 & H4). repeat split; assumption.
Qed.

Lemma setValue_touched fuel s type v s' :
  setValue fuel s type v = Some s' -> touched s s'.
Proof.
  unfold setValue. destruct type.
  - destruct (setFrom fuel s v true) as [[s1 r]|] eqn:E; [|discriminate].
    intros [= <-]. eauto using setFrom_touched.
  - destruct (setTo fuel s v true) as [[s1 r]|] eqn:E; [|discriminate].
    intros [= <-]. eauto using setTo_touched.
Qed.

Lemma called_touched s r s' :
  (forall s1, r = Some s1 -> touched s s1) ->
  settle s (called r) = Some s' -> touched s s'.
Proof.
  intros H. destruct r; simpl; intros [= <-]; [auto | constructor].
Qed.

Lemma scheduleCallback_touched s : touched s (scheduleCallback s).
Proof.
  replace (scheduleCallback s) with
    (fire true (set_values (minValue s) (maxValue s) (fromValue s) (toValue s) s))
    by now destruct s.
  apply touched_values. now destruct s.
Qed.

Lemma setMin_touched s v f : touched s (state_of (setMin s v f)).
Proof.
  unfold setMin.
  destruct (Num.leb_spec (maxValue s) v); [constructor|].
  destruct (Num.ltb_spec (fromValue s) v); [constructor|].
  apply touched_values. intros (H1 & H2 & H3 & H4). repeat split; assumption.
Qed.

Lemma setMax_touched s v f : touched s (state_of (setMax s v f)).
Proof.
  unfold setMax.
  destruct (Num.leb_spec v (minValue s)); [constructor|].
  destruct (Num.ltb_spec v (toValue s)); [constructor|].
  apply touched_values. intros (H1 & H2 & H3 & H4). repeat split; assumption.
Qed.

Lemma update_touched s o f : touched s (state_of (update s o f)).
Proof.
  unfold update.
  repeat (match goal with
          | |- context [Num.ltb ?a ?b] => destruct (Num.ltb_spec a b)
          | |- context [Num.leb ?a ?b] => destruct (Num.leb_spec a b)
          end; simpl; try apply touched_not).
  apply touched_values. intros _. repeat split; simpl; lra.
Qed.

Lemma onKey_touched fuel s key type s' :
  onKey fuel s key type = Some s' -> touched s s'.
Proof.
  unfold onKey. destruct key.
  1,2,3,4: destruct (_ <=? _); [|intros [= <-]; constructor];
    destruct (setValue _ _ _ _) eqn:E; [|discriminate]; intros [= <-];
    eapply touched_again; [eapply setValue_touched; eauto|];
    apply scheduleCallback_touched.
  intros [= <-]; constructor.
Qed.

Lemma trackClicked_touched fuel s x s' :
  settle s (trackClicked fuel s x) = Some s' -> touched s s'.
Proof.
  unfold trackClicked. destruct (trackRect s); [|intros [= <-]; constructor].
  destruct (click_candidate s d x); [|discriminate].
  destruct (_ <? _); apply called_touched; intros s1;
    [apply (setValue_touched fuel s Tfrom) | apply (setValue_touched fuel s Tto)].
Qed.

Lemma onDragMove_touched fuel s x s' :
  settle s (onDragMove fuel s x) = Some s' -> touched s s'.
Proof.
  unfold onDragMove.
  destruct (isDragging s); [|intros [= <-]; constructor].
  destruct (trackRect s); [|intros [= <-]; constructor].
  destruct (negb _); [intros [= <-]; constructor|].
  destruct (drag_candidate s d x); [|discriminate].
  apply called_touched; intros s1; apply setValue_touched.
Qed.

(** The ways an event changes the instance. *)
Inductive changed (s : DoubleRange) : Event -> DoubleRange -> Prop :=
| by_mutation e s' : touched s s' -> changed s e s'
| by_press type : destroyed s = false -> changed s (ThumbDown type) (onDragStart s type)
| by_release : changed s PointerUp (onDragEnd s)
| by_destroy : changed s Call_destroy (destroy s)
| by_report c track div : changed s (Observed c track div) (onObserved s c track div)
| by_timeout id : changed s (Timeout id) (timerElapsed id s).

Lemma handle_changed fuel s e s' : handle fuel s e = Some s' -> changed s e s'.
Proof.
  destruct e; simpl.
  - intros [= <-]. apply by_mutation, setMin_touched.
  - intros [= <-]. apply by_mutation, setMax_touched.
  - destruct (setFrom fuel s from fireCallback) as [[s1 r]|] eqn:E;
      intros [= <-]; apply by_mutation; eauto using setFrom_touched, touched_not.
  - destruct (setTo fuel s to fireCallback) as [[s1 r]|] eqn:E;
      intros [= <-]; apply by_mutation; eauto using setTo_touched, touched_not.
  - intros [= <-]. apply by_mutation, update_touched.
  - intros [= <-]. apply by_destroy.
  - destruct (destroyed s) eqn:D; intros [= <-];
      [apply by_mutation, touched_not | now apply by_press].
  - destruct (dragListeners s); [|intros [= <-]; apply by_mutation, touched_not].
    intros H. apply by_mutation. eauto using onDragMove_touched.
  - destruct (dragListeners s); intros [= <-];
      [apply by_release | apply by_mutation, touched_not].
  - destruct (destroyed s); [intros [= <-]; apply by_mutation, touched_not|].
    intros H. apply by_mutation. revert H. apply called_touched.
    intros s1. apply onKey_touched.
  - destruct (destroyed s); [intros [= <-]; apply by_mutation, touched_not|].
    intros H. apply by_mutation. eauto using trackClicked_touched.
  - destruct (observing s); intros [= <-];
      [apply by_report | apply by_mutation, touched_not].
  - intros [= <-]. apply by_timeout.
Qed.

(** ** The ordering invariant is kept by every event *)

Lemma scheduleCallback_values s : values (scheduleCallback s) = values s.
Proof. apply same_but_timers_values, scheduleCallback_same. Qed.

Lemma onDragStart_values s type : values (onDragStart s type) = values s.
Proof.
  unfold onDragStart, clearCallbackTimer.
  destruct s as [? [?|]]; reflexivity.
Qed.

Lemma onDragEnd_values s : values (onDragEnd s) = values s.
Proof.
  unfold onDragEnd. destruct (isDragging s); [|reflexivity].
  rewrite scheduleCallback_values. now destruct s.
Qed.

Lemma destroy_values s : values (destroy s) = values s.
Proof.
  unfold destroy. destruct (destroyed s); [reflexivity|].
  set (s1 := match isDragging s with Some _ => onDragEnd s | None => s end).
  assert (E : values s1 = values s)
    by (unfold s1; destruct (isDragging s); auto using onDragEnd_values).
  rewrite <- E. clearbody s1. destruct s1 as [? [?|]]; reflexivity.
Qed.

Lemma timerElapsed_values id s : values (timerElapsed id s) = values s.
Proof. unfold timerElapsed. destruct (existsb _ _); now destruct s. Qed.

Lemma onObserved_values s c track div : values (onObserved s c track div) = values s.
Proof.
  unfold onObserved. destruct (isInitObservation s); [now destruct s|].
  destruct (negb c); [apply destroy_values | now destruct s].
Qed.

Lemma handle_ordered fuel s e s' :
  handle fuel s e = Some s' -> ordered s -> ordered s'.
Proof.
  intros H. apply handle_changed in H. destruct H.
  - now apply touched_ordered.
  - apply ordered_values, onDragStart_values.
  - apply ordered_values, onDragEnd_values.
  - apply ordered_values, destroy_values.
  - apply ordered_values, onObserved_values.
  - apply ordered_values, timerElapsed_values.
Qed.

(** Whatever happens to an instance that satisfies the ordering invariant,
    and however deep the call stack is, the invariant holds afterwards. *)
Theorem run_ordered fuel es : forall s s',
  run fuel s es = Some s' -> ordered s -> ordered s'.
Proof.
  induction es as [|e es IH]; intros s s'; simpl.
  - now intros [= <-].
  - destruct (handle fuel s e) as [s1|] eqn:E; [|discriminate].
    eauto using handle_ordered.
Qed.

(** ** C8: no notification while a thumb is dragged *)

Definition dragging (s : DoubleRange) : bool :=
  match isDragging s with Some _ => true | None => false end.

(** At most one timer is armed, and it is the one [#callbackTimer] names. *)
Definition timer_consistent (s : DoubleRange) : Prop :=
  pendingTimers s = []
  \/ exists id, pendingTimers s = [id] /\ callbackTimer s = Some id.

(** The scheduler invariant: the drag flags agree with the drag state, and
    no timer is armed while a thumb is dragged. *)
Definition scheduler_inv (s : DoubleRange) : Prop :=
  timer_consistent s
  /\ duringDrag s = dragging s
  /\ dragListeners s = dragging s
  /\ (dragging s = true -> pendingTimers s = []).

Lemma clearCallbackTimer_pending s :
  timer_consistent s -> pendingTimers (clearCallbackTimer s) = [].
Proof.
  unfold clearCallbackTimer, timer_consistent.
  intros [H|(id & H & E)].
  - destruct (callbackTimer s); simpl; [rewrite H|]; auto.
  - rewrite E. simpl. rewrite H. simpl. now rewrite Pos.eqb_refl.
Qed.

Lemma scheduleCallback_pending s :
  timer_consistent s ->
  pendingTimers (scheduleCallback s)
  = if duringDrag s then [] else [nextTimerId s].
Proof.
  intros H. pose proof (clearCallbackTimer_pending s H) as P.
  pose proof (clearCallbackTimer_same s) as S.
  apply same_but_timers_fields in S as (_&_&_&_&_&_&_&_& D &_).
  unfold scheduleCallback. rewrite D.
  destruct (duringDrag s); [exact P|].
  unfold setTimeout. simpl. rewrite P. simpl. f_equal.
  unfold clearCallbackTimer. now destruct (callbackTimer s).
Qed.

Lemma scheduleCallback_consistent s :
  timer_consistent s -> timer_consistent (scheduleCallback s).
Proof.
  intros H. pose proof (scheduleCallback_pending s H) as P.
  destruct (duringDrag s) eqn:D; [now left|].
  right. exists (nextTimerId s). split; [exact P|].
  unfold scheduleCallback.
  pose proof (clearCallbackTimer_same s) as S.
  apply same_but_timers_fields in S as (_&_&_&_&_&_&_&_& D' &_).
  rewrite D', D. unfold setTimeout. simpl.
  unfold clearCallbackTimer. now destruct (callbackTimer s).
Qed.

Lemma scheduleCallback_inv s : scheduler_inv s -> scheduler_inv (scheduleCallback s).
Proof.
  intros (Ht & Hd & Hl & Hp).
  pose proof (scheduleCallback_same s) as S.
  apply same_but_timers_fields in S
    as (_&_&_&_&_&_&_& I & D & L &_).
  unfold scheduler_inv, dragging in *. rewrite I, D, L.
  repeat split; auto using scheduleCallback_consistent.
  intros Hdr. rewrite scheduleCallback_pending by assumption.
  now rewrite Hd, Hdr.
Qed.

Lemma fire_inv b s : scheduler_inv s -> scheduler_inv (fire b s).
Proof. destruct b; simpl; auto using scheduleCallback_inv. Qed.

Lemma set_values_inv a b c d s :
  scheduler_inv s -> scheduler_inv (set_values a b c d s).
Proof. destruct s; exact (fun H => H). Qed.

Lemma touched_inv s s' : touched s s' -> scheduler_inv s -> scheduler_inv s'.
Proof.
  induction 1; auto using fire_inv, set_values_inv.
Qed.

Lemma onDragStart_facts s type :
  timer_consistent s ->
  let s' := onDragStart s type in
  isDragging s' = Some type /\ duringDrag s' = true /\ dragListeners s' = true
  /\ pendingTimers s' = [] /\ callbackLog s' = callbackLog s
  /\ destroyed s' = destroyed s
  /\ step s' = step s /\ trackRect s' = trackRect s.
Proof.
  intros H. unfold onDragStart.
  set (s1 := set_drag (Some type) true (dragListeners s) s).
  assert (H1 : timer_consistent s1) by (destruct s; exact H).
  pose proof (clearCallbackTimer_pending s1 H1) as P.
  pose proof (clearCallbackTimer_same s1) as S.
  apply same_but_timers_fields in S
    as (_&_&_&_& St &_&_& I & D &_& Dd &_&_& T &_& L).
  simpl. rewrite P, I, D, L, Dd, St, T. destruct s; simpl. repeat split.
Qed.

Lemma onDragStart_inv s type : scheduler_inv s -> scheduler_inv (onDragStart s type).
Proof.
  intros (Ht & _).
  destruct (onDragStart_facts s type Ht) as (I & D & L & P & _).
  unfold scheduler_inv, dragging, timer_consistent. rewrite I, D, L, P. auto.
Qed.

Lemma onDragEnd_facts s :
  scheduler_inv s -> dragging s = true ->
  let s' := onDragEnd s in
  isDragging s' = None /\ pendingTimers s' = [nextTimerId s]
  /\ callbackTimer s' = Some (nextTimerId s)
  /\ callbackLog s' = callbackLog s
  /\ duringDrag s' = false /\ dragListeners s' = false.
Proof.
  intros (Ht & Hd & Hl & Hp) Hdr. unfold onDragEnd, dragging in *.
  destruct (isDragging s) eqn:I; [|discriminate].
  set (s1 := set_drag None false false s).
  assert (H1 : timer_consistent s1) by (destruct s; exact Ht).
  pose proof (scheduleCallback_pending s1 H1) as P.
  pose proof (scheduleCallback_consistent s1 H1) as C.
  pose proof (scheduleCallback_same s1) as S.
  apply same_but_timers_fields in S
    as (_&_&_&_&_&_&_& I' & D' & L' &_&_&_&_&_& Lg).
  simpl. rewrite P, I', D', L', Lg.
  replace (duringDrag s1) with false in * by now destruct s.
  replace (nextTimerId s1) with (nextTimerId s) in * by now destruct s.
  destruct C as [C|(id & C & E)]; rewrite P in C; [discriminate|].
  injection C as <-. rewrite E. destruct s; simpl. repeat split.
Qed.

Lemma onDragEnd_inv s : scheduler_inv s -> scheduler_inv (onDragEnd s).
Proof.
  intros H. destruct (dragging s) eqn:Hdr.
  - destruct (onDragEnd_facts s H Hdr) as (I & P & C & _ & D & L).
    unfold scheduler_inv, dragging, timer_consistent. rewrite I, P, C, D, L.
    repeat split; eauto; discriminate.
  - unfold onDragEnd, dragging in *. now destruct (isDragging s).
Qed.

Lemma timerElapsed_idle id s :
  pendingTimers s = [] -> timerElapsed id s = s.
Proof. unfold timerElapsed. now intros ->. Qed.

Lemma timerElapsed_delivers id s :
  pendingTimers s = [id] ->
  let s' := timerElapsed id s in
  callbackLog s' = callbackLog s ++ [(fromValue s, toValue s)]
  /\ pendingTimers s' = [].
Proof.
  unfold timerElapsed. intros ->. simpl. rewrite !Pos.eqb_refl. simpl.
  split; reflexivity.
Qed.

Lemma timerElapsed_other id id' s :
  pendingTimers s = [id] -> id' <> id -> timerElapsed id' s = s.
Proof.
  unfold timerElapsed. intros -> H. simpl.
  apply Pos.eqb_neq in H. now rewrite H.
Qed.

Lemma timerElapsed_inv id s : scheduler_inv s -> scheduler_inv (timerElapsed id s).
Proof.
  intros (Ht & Hd & Hl & Hp). destruct Ht as [Ht|(id' & Ht & E)].
  - rewrite timerElapsed_idle by assumption. repeat split; auto. now left.
  - destruct (Pos.eq_dec id id') as [->|Hne].
    + unfold scheduler_inv, timer_consistent, dragging in *.
      unfold timerElapsed in *. rewrite Ht in *. simpl in *.
      rewrite !Pos.eqb_refl in *. simpl in *. auto.
    + rewrite (timerElapsed_other id' id) by assumption.
      repeat split; auto. right. eauto.
Qed.

Lemma set_lifecycle_inv a b c s :
  scheduler_inv s -> scheduler_inv (set_lifecycle a b c s).
Proof. destruct s; exact (fun H => H). Qed.

Lemma set_rects_inv a b s : scheduler_inv s -> scheduler_inv (set_rects a b s).
Proof. destruct s; exact (fun H => H). Qed.

Lemma destroy_inv s : scheduler_inv s -> scheduler_inv (destroy s).
Proof.
  intros H. unfold destroy. destruct (destroyed s); [exact H|].
  apply set_lifecycle_inv.
  set (s1 := match isDragging s with Some _ => onDragEnd s | None => s end).
  assert (H1 : scheduler_inv s1)
    by (unfold s1; destruct (isDragging s); auto using onDragEnd_inv).
  set (s2 := set_lifecycle (destroyed s1) false (isInitObservation s1) s1).
  assert (H2 : scheduler_inv s2) by (apply set_lifecycle_inv, H1).
  clearbody s2. clear - H2. destruct H2 as (Ht & Hd & Hl & Hp).
  destruct (callbackTimer s2) as [id|] eqn:E; [|repeat split; auto].
  assert (P : pendingTimers (clearTimeout id s2) = []).
  { pose proof (clearCallbackTimer_pending s2 Ht) as P.
    unfold clearCallbackTimer in P. now rewrite E in P. }
  rewrite P. unfold scheduler_inv, timer_consistent, dragging in *. simpl.
  repeat split; auto.
Qed.

(** [destroy()] may be called again: the second call does nothing. *)
Lemma destroy_idempotent s : destroy (destroy s) = destroy s.
Proof.
  assert (H : destroyed (destroy s) = true).
  { unfold destroy. destruct (destroyed s) eqn:E; [exact E | reflexivity]. }
  unfold destroy at 1. now rewrite H.
Qed.

Lemma onObserved_inv s c track div :
  scheduler_inv s -> scheduler_inv (onObserved s c track div).
Proof.
  intros H. unfold onObserved, setOuterRects.
  destruct (isInitObservation s); [now apply set_lifecycle_inv|].
  destruct (negb c); auto using destroy_inv, set_rects_inv.
Qed.

(** Every event preserves the scheduler invariant. *)
Lemma handle_inv fuel s e s' :
  handle fuel s e = Some s' -> scheduler_inv s -> scheduler_inv s'.
Proof.
  intros H. apply handle_changed in H.
  destruct H; eauto using touched_inv, onDragStart_inv, onDragEnd_inv,
    destroy_inv, onObserved_inv, timerElapsed_inv.
Qed.

Lemma run_inv fuel es : forall s s',
  run fuel s es = Some s' -> scheduler_inv s -> scheduler_inv s'.
Proof.
  induction es as [|e es IH]; intros s s'; simpl.
  - now intros [= <-].
  - destruct (handle fuel s e) as [s1|] eqn:E; [|discriminate].
    eauto using handle_inv.
Qed.

Lemma fresh_instance_inv o mn mx st f t track dv :
  scheduler_inv (World.fresh_instance o mn mx st f t track dv).
Proof. repeat split; auto. now left. Qed.

(** The events that do not end a drag: everything but the release of the
    pointer, [destroy()], and a report of the observer (which may destroy). *)
Definition keeps_dragging (e : Event) : bool :=
  match e with
  | PointerUp | Call_destroy | Observed _ _ _ => false
  | _ => true
  end.

Lemma handle_during_drag fuel s e s' :
  handle fuel s e = Some s' ->
  scheduler_inv s -> dragging s = true -> keeps_dragging e = true ->
  dragging s' = true /\ callbackLog s' = callbackLog s.
Proof.
  intros H Hi D K. apply handle_changed in H.
  destruct H as [e s' H| | | | |]; try discriminate.
  - apply touched_rest in H as (_ & I & _ & _ & _ & _ & L).
    unfold dragging in *. rewrite I, L. auto.
  - destruct Hi as (Ht & _).
    destruct (onDragStart_facts s type Ht) as (I & _ & _ & _ & L & _).
    unfold dragging. rewrite I, L. auto.
  - destruct Hi as (_ & _ & _ & P). rewrite timerElapsed_idle; auto.
Qed.

Lemma run_during_drag fuel es : forall s s',
  run fuel s es = Some s' ->
  scheduler_inv s -> dragging s = true -> forallb keeps_dragging es = true ->
  scheduler_inv s' /\ dragging s' = true /\ callbackLog s' = callbackLog s.
Proof.
  induction es as [|e es IH]; intros s s'; simpl.
  - intros [= <-]. auto.
  - destruct (handle fuel s e) as [s1|] eqn:E; [|discriminate].
    intros R H D K. apply andb_prop in K as [Ke Kes].
    destruct (handle_during_drag fuel s e s1 E H D Ke) as (D1 & L1).
    destruct (IH s1 s' R (handle_inv fuel s e s1 E H) D1 Kes) as (? & ? & L).
    rewrite L, L1. auto.
Qed.

(** *** Where the model is defined

    An event is undefined only where its handler divides by zero: the step,
    or the width of the measured track. *)

Definition measured (s : DoubleRange) : Prop :=
  ~ step s == 0 /\ forall r, trackRect s = Some r -> ~ rect_width r == 0.

Lemma handle_measured fuel s e s' :
  handle fuel s e = Some s' -> measurable e -> measured s -> measured s'.
Proof.
  intros H M (Hs & Ht). apply handle_changed in H. destruct H.
  - apply touched_rest in H as (St & _ & _ & _ & _ & T & _).
    unfold measured. now rewrite St, T.
  - unfold measured, onDragStart, clearCallbackTimer.
    destruct s as [? [?|]]; simpl in *; auto.
  - unfold measured, onDragEnd, scheduleCallback, clearCallbackTimer.
    destruct s as [? [?|] ? ? ? ? ? ? ? [?|] []]; simpl in *; auto.
  - unfold measured, destroy, onDragEnd, scheduleCallback, clearCallbackTimer.
    destruct s as [[] [?|] ? ? ? ? ? ? ? [?|] []]; simpl in *; auto.
  - simpl in M. unfold measured, onObserved, setOuterRects.
    destruct (isInitObservation s); [destruct s; simpl in *; auto|].
    destruct (negb c).
    + unfold destroy, onDragEnd, scheduleCallback, clearCallbackTimer.
      destruct s as [[] [?|] ? ? ? ? ? ? ? [?|] []]; simpl in *; auto.
    + destruct s; simpl in *. split; [assumption|]. now intros r [= <-].
  - unfold measured, timerElapsed. destruct (existsb _ _); destruct s; simpl in *; auto.
Qed.

Lemma handle_defined fuel s e : measured s -> exists s', handle fuel s e = Some s'.
Proof.
  intros (Hs & Ht). destruct e; cbn [handle]; eauto.
  - destruct (setFrom fuel s from fireCallback) as [[s1 r]|]; eauto.
  - destruct (setTo fuel s to fireCallback) as [[s1 r]|]; eauto.
  - destruct (dragListeners s); eauto. unfold onDragMove.
    destruct (isDragging s); cbn [settle]; eauto.
    destruct (trackRect s) as [r|] eqn:T; cbn [settle]; eauto.
    destruct (negb _); cbn [settle]; eauto.
    unfold drag_candidate, snap.
    rewrite (div_defined _ _ (Ht r eq_refl)), (div_defined _ _ Hs).
    match goal with
    | |- context [setValue ?a ?b ?c ?d] => destruct (setValue a b c d)
    end; cbn [settle called]; eauto.
  - destruct (destroyed s); eauto.
    destruct (onKey fuel s key type); cbn [settle called]; eauto.
  - destruct (destroyed s); eauto. unfold trackClicked.
    destruct (trackRect s) as [r|] eqn:T; cbn [settle]; eauto.
    unfold click_candidate, snap.
    rewrite (div_defined _ _ (Ht r eq_refl)), (div_defined _ _ Hs).
    destruct (Num.ltb _ _);
      match goal with
      | |- context [dropped ?a] => destruct (dropped a)
      end; cbn [settle called]; eauto.
Qed.

Lemma run_defined fuel es : forall s,
  measured s -> Forall measurable es -> exists s', run fuel s es = Some s'.
Proof.
  induction es as [|e es IH]; intros s M F; simpl; [eauto|].
  inversion F as [|? ? Me Fes]; subst.
  destruct (handle_defined fuel s e M) as (s1 & E). rewrite E.
  eauto using handle_measured.
Qed.

(** C8.  (a) In every state a freshly bound instance can reach, no
    notification timer is armed while a thumb is dragged.  (b) A drag
    gesture: the press on a thumb cancels a pending timer; during the
    moves that follow (and whatever else happens before the release,
    timeouts of the host included) no timer is armed and the callback is
    not invoked; the release arms exactly one timer, and when it elapses
    the callback is invoked once, with the values the drag settled on,
    leaving no timer behind.  (c) The runs these statements speak of
    exist: with a step and a track width other than zero every sequence of
    events has an outcome. *)
Theorem drag_suppresses_notification :
  (forall fuel o mn mx st f t track dv es s,
     run fuel (World.fresh_instance o mn mx st f t track dv) es = Some s ->
     isDragging s <> None -> pendingTimers s = [])
  /\ (forall fuel s type es s1,
        scheduler_inv s -> destroyed s = false ->
        forallb keeps_dragging es = true ->
        run fuel s (ThumbDown type :: es) = Some s1 ->
        (isDragging s1 <> None /\ pendingTimers s1 = []
         /\ callbackLog s1 = callbackLog s)
        /\ exists s2,
             handle fuel s1 PointerUp = Some s2
             /\ isDragging s2 = None /\ callbackLog s2 = callbackLog s
             /\ exists id,
                  pendingTimers s2 = [id]
                  /\ exists s3,
                       handle fuel s2 (Timeout id) = Some s3
                       /\ callbackLog s3
                          = callbackLog s ++ [(fromValue s2, toValue s2)]
                       /\ pendingTimers s3 = [])
  /\ (forall fuel s es,
        measured s -> Forall measurable es ->
        exists s', run fuel s es = Some s').
Proof.
  split; [|split].
  - intros fuel o mn mx st f t track dv es s R.
    destruct (run_inv fuel es _ _ R (fresh_instance_inv o mn mx st f t track dv))
      as (_ & _ & _ & P).
    intros H. apply P. unfold dragging. now destruct (isDragging s).
  - intros fuel s type es s1 H Dd K R.
    assert (H0 : scheduler_inv (onDragStart s type)) by now apply onDragStart_inv.
    destruct H as (Ht & Hrest).
    destruct (onDragStart_facts s type Ht) as (I0 & _ & _ & _ & L0 & _).
    assert (D0 : dragging (onDragStart s type) = true)
      by (unfold dragging; now rewrite I0).
    simpl in R. rewrite Dd in R.
    destruct (run_during_drag fuel es _ _ R H0 D0 K) as (H1 & D1 & L1).
    assert (P1 : pendingTimers s1 = []) by (apply H1, D1).
    assert (Ls : dragListeners s1 = true)
      by (destruct H1 as (_ & _ & -> & _); exact D1).
    destruct (onDragEnd_facts s1 H1 D1) as (I2 & P2 & _ & L2 & _).
    destruct (timerElapsed_delivers _ _ P2) as (L3 & P3).
    split; [repeat split|].
    + unfold dragging in D1. now destruct (isDragging s1).
    + exact P1.
    + congruence.
    + exists (onDragEnd s1). simpl. rewrite Ls.
      repeat split; [exact I2 | congruence |].
      exists (nextTimerId s1). split; [exact P2|].
      eexists. split; [reflexivity|]. rewrite L3, P3, L2, L1, L0. auto.
  - intros fuel s es. apply run_defined.
Qed.

Lemma drag_suppresses_notification_witness :
  exists s1,
    run 2 price_slider [ThumbDown Tfrom; PointerMove 30; PointerMove 40] = Some s1
    /\ isDragging s1 <> None /\ pendingTimers s1 = []
    /\ callbackLog s1 = callbackLog price_slider.
Proof.
  destruct (proj2 (proj2 drag_suppresses_notification) 2%nat price_slider
              [ThumbDown Tfrom; PointerMove 30; PointerMove 40])
    as (s1 & R).
  - split; [discriminate|]. intros r [= <-]. discriminate.
  - repeat constructor.
  - exists s1. split; [exact R|].
    apply (proj1 (proj2 drag_suppresses_notification) 2%nat price_slider Tfrom
             [PointerMove 30; PointerMove 40] s1); trivial.
    repeat split; auto. now left.
Defined.

(** ** Binding *)

Lemma truthy_spec x : BoolSpec (~ x == 0) (x == 0) (Num.truthy x).
Proof.
  unfold Num.truthy. destruct (Qeq_bool x 0) eqn:E; simpl; constructor.
  - now apply Qeq_bool_iff.
  - intros H. apply Qeq_bool_iff in H. congruence.
Qed.

(** [create] hands the constructor a structure it has just written, and the
    instance that results satisfies the ordering invariant. *)
Theorem create_ordered w o w' id s :
  World.create w o = (w', World.Ok id) ->
  World.instance w' (World.Ok id) = Some s ->
  ordered s.
Proof.
  unfold World.create.
  destruct (World.c_min o) as [mn|]; [|discriminate].
  destruct (World.c_max o) as [mx|]; [|discriminate].
  destruct (World.c_from o) as [f|] eqn:Ef; [|discriminate].
  destruct (World.c_to o) as [t|] eqn:Et; [|discriminate].
  destruct (World.c_step o) as [st|]; [|discriminate].
  destruct (Num.ltb_spec f mn); [discriminate|].
  destruct (Num.ltb_spec mx f); [discriminate|]. simpl.
  destruct (Num.ltb_spec t mn); [discriminate|].
  destruct (Num.ltb_spec mx t); [discriminate|]. simpl.
  destruct (Num.leb_spec t f); [discriminate|].
  destruct (negb (World.c_callback o)) eqn:Ec; [discriminate|].
  unfold World.new_DoubleRange, World.getElement. rewrite Ec. simpl.
  destruct (World.querySelectorAll _ _) as [|el [|el' els]]; try discriminate.
  destruct (decide _); [discriminate|].
  rewrite lookup_insert_eq. simpl. rewrite Ef, Et.
  set (f' := World.first_truthy f (Some f) mn).
  set (t' := World.first_truthy t (Some t) mx).
  assert (Hf : f' = f \/ (f == 0 /\ f' = mn)).
  { unfold f', World.first_truthy. destruct (truthy_spec f); auto. }
  assert (Ht : t' = t \/ (t == 0 /\ t' = mx)).
  { unfold t', World.first_truthy. destruct (truthy_spec t); auto. }
  destruct (Num.leb_spec t' f'); [discriminate|].
  intros [= <- <-]. simpl.
  rewrite list_lookup_middle by reflexivity. simpl. intros [= <-].
  unfold ordered. simpl. fold f' t'.
  destruct Hf as [->|[Hf ->]], Ht as [->|[Ht ->]]; repeat split; lra.
Qed.

(** *** C1: the constructor accepts values outside the bounds *)

(** C1, at the failing input.  Attaching with the configuration
    [{min: -50, max: 50, from: -20, to: 30, step: 5}] to a structure without
    ARIA attributes succeeds; the bounds of the instance are the defaults
    [0] and [100], its values [-20] and [100], so [from] lies below [min]
    right after binding.  (The same configuration passes every check of
    [create].) *)
Theorem attach_breaks_ordering :
  let o := config None None (-50) 50 (-20) 30 5 in
  let '(w, r) := World.new_DoubleRange (world_with bare_markup) o in
  exists s, r = World.Ok 0%nat /\ World.instance w r = Some s
    /\ values s = (0, 100, -20, 100)
    /\ fromValue s < minValue s
    /\ ~ ordered s
    /\ exists w' id, World.create (world_with bare_markup) o = (w', World.Ok id).
Proof.
  vm_compute. eexists. repeat split; try reflexivity.
  - intros (_ & H & _). vm_compute in H. now apply H.
  - eexists _, _. reflexivity.
Qed.

(** *** C3: binding twice to the same host *)

(** A complete structure, every required element present (as [create]
    generates it), for [min: 0, max: 100, from: 20, to: 80]. *)
Definition readme_markup : World.Markup :=
  {| World.div := Some 2%positive; World.requiredElements := true;
     World.aria_valuemin := Some 0; World.aria_valuemax := Some 100;
     World.aria_valuenow_from := Some 20; World.aria_valuenow_to := Some 80 |}.

(** The registry is keyed by the [.double-range] element, while the
    constructor looks the host element up: as long as the two differ (the
    former is a descendant of the latter), a constructor call that
    succeeded once succeeds again on the same host. *)
Lemma second_bind_succeeds w o w1 id container m dv :
  World.new_DoubleRange w o = (w1, World.Ok id) ->
  World.getElement (World.document w) (World.selector o) = World.Ok container ->
  World.content (World.document w) !! container = Some m ->
  World.div m = Some dv -> dv <> container ->
  exists w2,
    World.new_DoubleRange w1 o = (w2, World.Ok (S id))
    /\ length (World.instances w2) = S (S id)
    /\ World.map w2 !! dv = Some (S id).
Proof.
  unfold World.new_DoubleRange. intros H Eg Ec Ed Hne.
  destruct (negb (World.c_callback o)); [discriminate|].
  rewrite Eg, Ec, Ed in H.
  destruct (decide (is_Some (World.map w !! container))) as [|Hfree];
    [discriminate|].
  destruct (negb (World.requiredElements m)) eqn:Er; [discriminate|].
  destruct (_ <=? _) eqn:Ev; [discriminate|].
  injection H as <- <-. simpl. rewrite Eg, Ec, Ed, Er, Ev.
  rewrite lookup_insert_ne by assumption.
  destruct (decide (is_Some (World.map w !! container))); [contradiction|].
  unfold World.with_instance at 1. simpl.
  rewrite !length_app. simpl.
  replace (length (World.instances w) + 1)%nat
    with (S (length (World.instances w))) by lia.
  eexists. split; [reflexivity|]. simpl. split.
  - rewrite !length_app. simpl. lia.
  - now rewrite lookup_insert_eq.
Qed.

(** C3, at the failing input.  On a complete structure under [#my-slider],
    [new DoubleRange(o)] called twice with the same selector succeeds
    twice: two instances exist, the first is registered under the
    [.double-range] element (not under the host, which is what the
    constructor tests), and the second takes over the registry entry.
    [create] called twice succeeds twice as well. *)
Theorem double_initialization_not_prevented :
  let o := config None None 0 100 20 80 1 in
  let w0 := world_with readme_markup in
  let '(w1, r1) := World.new_DoubleRange w0 o in
  let '(w2, r2) := World.new_DoubleRange w1 o in
  (r1 = World.Ok 0%nat /\ r2 = World.Ok 1%nat
   /\ length (World.instances w2) = 2%nat
   /\ World.map w1 !! 2%positive = Some 0%nat
   /\ World.map w1 !! 1%positive = None
   /\ World.getByContainer w1 1%positive = Some 0%nat
   /\ World.getByContainer w2 1%positive = Some 1%nat)
  /\ let '(w1', r1') := World.create w0 o in
     let '(w2', r2') := World.create w1' o in
     r1' = World.Ok 0%nat /\ r2' = World.Ok 1%nat
     /\ length (World.instances w2') = 2%nat.
Proof. vm_compute. repeat split. Qed.


(** * Further properties of the code *)

(** ** The scheduler, continued *)

Lemma set_values_consistent a b c d s :
  timer_consistent s -> timer_consistent (set_values a b c d s).
Proof. destruct s; exact (fun H => H). Qed.

Lemma fire_true_pending a b c d s :
  scheduler_inv s -> duringDrag s = false ->
  pendingTimers (fire true (set_values a b c d s)) = [nextTimerId s].
Proof.
  intros (Ht & _) D. simpl.
  rewrite scheduleCallback_pending by now apply set_values_consistent.
  destruct s; simpl in *. now rewrite D.
Qed.

(** X4.  Outside a drag, every notifying mutator that is accepted leaves
    exactly one timer armed, a fresh one: [setMin], [setMax] and [update]
    when they return, [setFrom] and [setTo] when they return [this]. *)
Theorem accepted_update_arms_one_timer s v o :
  scheduler_inv s -> duringDrag s = false ->
  (throws (setMin s v true) = false ->
   pendingTimers (state_of (setMin s v true)) = [nextTimerId s])
  /\ (throws (setMax s v true) = false ->
      pendingTimers (state_of (setMax s v true)) = [nextTimerId s])
  /\ (throws (update s o true) = false ->
      pendingTimers (state_of (update s o true)) = [nextTimerId s])
  /\ (forall n s', setFrom (S n) s v true = Some (s', This) ->
        pendingTimers s' = [nextTimerId s])
  /\ (forall n s', setTo (S n) s v true = Some (s', This) ->
        pendingTimers s' = [nextTimerId s]).
Proof.
  intros Hi D. repeat split.
  - unfold setMin. destruct (_ <=? _); [discriminate|].
    destruct (_ <? _); [discriminate|]. intros _. now apply fire_true_pending.
  - unfold setMax. destruct (_ <=? _); [discriminate|].
    destruct (_ <? _); [discriminate|]. intros _. now apply fire_true_pending.
  - unfold update.
    repeat match goal with
           | |- context [if ?c then _ else _] => destruct c; try discriminate
           end.
    intros _. now apply fire_true_pending.
  - intros n s' E.
    apply setFrom_shape in E as [[_ H]|(v' & b & _ & -> & H)];
      [now contradiction H|].
    destruct (H eq_refl) as [_ ->]. now apply fire_true_pending.
  - intros n s' E.
    apply setTo_shape in E as [[_ H]|(v' & b & _ & -> & H)];
      [now contradiction H|].
    destruct (H eq_refl) as [_ ->]. now apply fire_true_pending.
Qed.

Lemma accepted_update_arms_one_timer_witness :
  pendingTimers (state_of (setMin price_slider 10 true))
  = [nextTimerId price_slider].
Proof.
  apply (proj1 (accepted_update_arms_one_timer price_slider 10
                  {| o_min := None; o_max := None; o_from := None; o_to := None |}
                  ltac:(repeat split; auto; now left) eq_refl)).
  reflexivity.
Defined.



(** Case analysis on the fields a handler branches on. *)
Ltac by_fields s :=
  destruct s as [[] [?|] ? ? ? ? ? ? ? [?|] []]; simpl in *;
  try reflexivity.

Lemma onDragStart_log s type : callbackLog (onDragStart s type) = callbackLog s.
Proof. unfold onDragStart, clearCallbackTimer, clearTimeout. by_fields s. Qed.

Lemma onDragEnd_log s : callbackLog (onDragEnd s) = callbackLog s.
Proof.
  unfold onDragEnd, scheduleCallback, clearCallbackTimer, clearTimeout, setTimeout.
  by_fields s.
Qed.

Lemma destroy_log s : callbackLog (destroy s) = callbackLog s.
Proof.
  unfold destroy, onDragEnd, scheduleCallback, clearCallbackTimer, clearTimeout,
    setTimeout.
  by_fields s.
Qed.

Lemma onObserved_log s c track div :
  callbackLog (onObserved s c track div) = callbackLog s.
Proof.
  unfold onObserved. destruct (isInitObservation s); [now destruct s|].
  destruct (negb c); [apply destroy_log | now destruct s].
Qed.

(** The events other than a timeout of the host. *)
Definition quiet (e : Event) : bool :=
  match e with Timeout _ => false | _ => true end.

Lemma handle_quiet_log fuel s e s' :
  handle fuel s e = Some s' -> quiet e = true -> callbackLog s' = callbackLog s.
Proof.
  intros H Q. apply handle_changed in H.
  destruct H as [e s' H| | | | |]; try discriminate.
  - now apply touched_rest in H as (_ & _ & _ & _ & _ & _ & L).
  - apply onDragStart_log.
  - apply onDragEnd_log.
  - apply destroy_log.
  - apply onObserved_log.
Qed.

(** X6.  Debounce.  However many events come in before a timeout of the
    host (calls of the API, key presses, clicks, drags, resizes), the
    callback is not invoked meanwhile and at most one timer is left armed;
    when that timer elapses the callback is invoked once, with the values of
    that moment, and no timer is left. *)
Theorem burst_delivers_once fuel es : forall s s',
  scheduler_inv s -> forallb quiet es = true -> run fuel s es = Some s' ->
  callbackLog s' = callbackLog s
  /\ (pendingTimers s' = []
      \/ exists id,
           pendingTimers s' = [id]
           /\ callbackLog (timerElapsed id s')
              = callbackLog s ++ [(fromValue s', toValue s')]
           /\ pendingTimers (timerElapsed id s') = []).
Proof.
  induction es as [|e es IH]; intros s s' Hi Q; simpl.
  - intros [= <-]. split; [reflexivity|].
    destruct Hi as ([P|(id & P & _)] & _); [now left|].
    right. exists id. split; [exact P|]. now apply timerElapsed_delivers.
  - simpl in Q. apply andb_prop in Q as [Qe Qes].
    destruct (handle fuel s e) as [s1|] eqn:E; [|discriminate].
    intros R.
    destruct (IH s1 s' (handle_inv fuel s e s1 E Hi) Qes R) as (L & P).
    rewrite (handle_quiet_log fuel s e s1 E Qe) in *. auto.
Qed.

Lemma burst_delivers_once_witness :
  exists s',
    run 2 price_slider
      [Call_setFrom 30 true; KeyDown Tto ArrowLeft; Call_setTo 90 true] = Some s'
    /\ callbackLog s' = callbackLog price_slider
    /\ (pendingTimers s' = []
        \/ exists id,
             pendingTimers s' = [id]
             /\ callbackLog (timerElapsed id s')
                = callbackLog price_slider ++ [(fromValue s', toValue s')]
             /\ pendingTimers (timerElapsed id s') = []).
Proof.
  eexists. split; [reflexivity|].
  apply (burst_delivers_once 2
           [Call_setFrom 30 true; KeyDown Tto ArrowLeft; Call_setTo 90 true]
           price_slider);
    [repeat split; auto; now left | reflexivity | reflexivity].
Defined.

(** ** Teardown *)

(** The input events, the reports of the observer and the timeouts: what
    reaches the instance without a call of its API. *)
Definition from_host (e : Event) : bool :=
  match e with
  | ThumbDown _ | PointerMove _ | PointerUp | KeyDown _ _ | TrackClick _
  | Observed _ _ _ | Timeout _ => true
  | _ => false
  end.

Lemma destroy_flags s :
  destroyed s = false ->
  destroyed (destroy s) = true /\ isDragging (destroy s) = None
  /\ observing (destroy s) = false /\ callbackTimer (destroy s) = None.
Proof.
  unfold destroy, onDragEnd, scheduleCallback, clearCallbackTimer, clearTimeout,
    setTimeout.
  intros D. destruct s as [d [id|] ? ? ? ? ? ? ? [t|] []]; simpl in *; subst;
    repeat split.
Qed.

(** X7.  [destroy()] on a live instance tears it down completely: the
    instance is marked destroyed, no drag is in progress, the document
    listeners and the observer are gone, no timer is armed; the values and
    the record of past notifications are as before.  From then on nothing
    that comes from the host (input events, reports of the observer,
    timeouts) changes the instance, and a second [destroy()] does
    nothing. *)
Theorem destroy_tears_down s :
  scheduler_inv s -> destroyed s = false ->
  let s' := destroy s in
  (destroyed s' = true /\ isDragging s' = None /\ dragListeners s' = false
   /\ observing s' = false /\ callbackTimer s' = None /\ pendingTimers s' = [])
  /\ values s' = values s /\ callbackLog s' = callbackLog s
  /\ (forall fuel e, from_host e = true -> handle fuel s' e = Some s')
  /\ destroy s' = s'.
Proof.
  intros Hi D s'.
  destruct (destroy_flags s D) as (F1 & F2 & F3 & F4). fold s' in F1, F2, F3, F4.
  destruct (destroy_inv s Hi) as (Ht & _ & Hl & _). fold s' in Ht, Hl.
  assert (F5 : dragListeners s' = false)
    by (rewrite Hl; unfold dragging; now rewrite F2).
  assert (F6 : pendingTimers s' = []).
  { destruct Ht as [P|(id & _ & C)]; [exact P | congruence]. }
  split; [repeat split; assumption|].
  split; [apply destroy_values|]. split; [apply destroy_log|]. split.
  - intros fuel e He.
    destruct e; try discriminate; cbn [handle];
      rewrite ?F1, ?F3, ?F5; try reflexivity.
    now rewrite timerElapsed_idle.
  - unfold destroy at 1. now rewrite F1.
Qed.

Lemma destroy_tears_down_witness :
  let s' := destroy price_slider in
  (destroyed s' = true /\ isDragging s' = None /\ dragListeners s' = false
   /\ observing s' = false /\ callbackTimer s' = None /\ pendingTimers s' = [])
  /\ values s' = values price_slider /\ callbackLog s' = callbackLog price_slider
  /\ (forall fuel e, from_host e = true -> handle fuel s' e = Some s')
  /\ destroy s' = s'.
Proof.
  apply (destroy_tears_down price_slider);
    [repeat split; auto; now left | reflexivity].
Defined.



(** ** The keyboard *)







(** ** Dragging *)



(** ** A step that is not positive *)

Lemma setTo_diverges fuel : forall s v f,
  step s <= 0 -> minValue s <= fromValue s + step s -> fromValue s <= maxValue s ->
  minValue s <= v -> v <= maxValue s -> v <= fromValue s ->
  setTo fuel s v f = None.
Proof.
  induction fuel as [|fuel IH]; intros s v f Hs H1 H2 H3 H4 H5; simpl;
    [reflexivity|].
  rewrite (IH s (fromValue s + step s) true) by lra.
  cmp; try reflexivity; exfalso; lra.
Qed.

(** X15.  Nothing checks the step.  With a step of zero, on an instance
    that satisfies the ordering invariant, [setFrom(v)] with
    [to <= v <= max] and [setTo(v)] with [min <= v <= from] never return:
    the corrective self-call repeats itself until the call stack runs out,
    whatever its depth.  The same holds for a negative step as long as the
    corrective value stays within the bounds.  The instance is left as it
    was. *)
Theorem nonpositive_step_never_returns fuel s v f :
  ordered s -> step s <= 0 ->
  (toValue s <= v -> v <= maxValue s -> toValue s - step s <= maxValue s ->
   setFrom fuel s v f = None
   /\ handle fuel s (Call_setFrom v f) = Some s)
  /\ (minValue s <= v -> v <= fromValue s -> minValue s <= fromValue s + step s ->
      setTo fuel s v f = None
      /\ handle fuel s (Call_setTo v f) = Some s).
Proof.
  intros (Hmm & Hmf & Hft & Htm) Hs. split.
  - intros H1 H2 H3.
    assert (E : setFrom fuel s v f = None) by (apply setFrom_diverges; lra).
    split; [exact E|]. cbn [handle]. now rewrite E.
  - intros H1 H2 H3.
    assert (E : setTo fuel s v f = None) by (apply setTo_diverges; lra).
    split; [exact E|]. cbn [handle]. now rewrite E.
Qed.

Lemma nonpositive_step_never_returns_witness :
  setFrom 1000 (sample None None 0 20 80) 90 true = None
  /\ handle 1000 (sample None None 0 20 80) (Call_setFrom 90 true)
     = Some (sample None None 0 20 80).
Proof.
  apply (proj1 (nonpositive_step_never_returns 1000 (sample None None 0 20 80)
                  90 true ltac:(repeat split; discriminate)
                  ltac:(discriminate)));
    discriminate.
Defined.

(** ** The registry *)

(** The world [create] leaves when it succeeds on host [el]. *)
Definition after_create (w : World.World) (o : World.DoubleRangeConfig)
    (el : World.Elem) (mn mx f t st : Q) : World.World :=
  World.with_instance
    (World.write (World.bump w) el
       (World.generated (World.freshElem (World.document w)) mn mx f t))
    (World.freshElem (World.document w))
    (World.fresh_instance o mn mx st
       (if Num.truthy f then f else mn) (if Num.truthy t then t else mx)
       (World.trackBox (World.document w) el)
       (World.divBox (World.document w) el)).

(** The conditions under which [create] succeeds on host [el]. *)
Definition creatable (w : World.World) (o : World.DoubleRangeConfig)
    (el : World.Elem) (mn mx f t st : Q) : Prop :=
  World.c_min o = Some mn /\ World.c_max o = Some mx
  /\ World.c_from o = Some f /\ World.c_to o = Some t
  /\ World.c_step o = Some st
  /\ mn <= f /\ f < t /\ t <= mx
  /\ World.c_callback o = true
  /\ World.querySelectorAll (World.document w) (World.selector o) = [el]
  /\ World.map w !! el = None.

Lemma first_truthy_same a c :
  World.first_truthy a (Some a) c = if Num.truthy a then a else c.
Proof. unfold World.first_truthy. now destruct (Num.truthy a). Qed.

Lemma initial_values_apart mn mx f t :
  mn <= f -> f < t -> t <= mx ->
  (if Num.truthy f then f else mn) < (if Num.truthy t then t else mx).
Proof.
  intros H1 H2 H3.
  destruct (truthy_spec f), (truthy_spec t); lra.
Qed.

Lemma create_fresh w o w' id :
  World.create w o = (w', World.Ok id) ->
  exists el mn mx f t st,
    creatable w o el mn mx f t st
    /\ id = length (World.instances w)
    /\ w' = after_create w o el mn mx f t st.
Proof.
  unfold World.create.
  destruct (World.c_min o) as [mn|] eqn:Emn; [|discriminate].
  destruct (World.c_max o) as [mx|] eqn:Emx; [|discriminate].
  destruct (World.c_from o) as [f|] eqn:Ef; [|discriminate].
  destruct (World.c_to o) as [t|] eqn:Et; [|discriminate].
  destruct (World.c_step o) as [st|] eqn:Est; [|discriminate].
  destruct (Num.ltb_spec f mn); [discriminate|].
  destruct (Num.ltb_spec mx f); [discriminate|]. simpl.
  destruct (Num.ltb_spec t mn); [discriminate|].
  destruct (Num.ltb_spec mx t); [discriminate|]. simpl.
  destruct (Num.leb_spec t f); [discriminate|].
  destruct (World.c_callback o) eqn:Ec; [|discriminate]. cbn [negb].
  unfold World.new_DoubleRange, World.getElement. rewrite Ec. simpl.
  destruct (World.querySelectorAll _ _) as [|el [|el' els]] eqn:Eq;
    try discriminate.
  destruct (decide _) as [|Hfree]; [discriminate|].
  rewrite lookup_insert_eq. simpl. rewrite Ef, Et, Est, !first_truthy_same.
  destruct (Num.leb_spec (if Num.truthy t then t else mx)
              (if Num.truthy f then f else mn)); [discriminate|].
  intros [= <- <-].
  exists el, mn, mx, f, t, st. split; [|split; reflexivity].
  unfold creatable. repeat split; try assumption; try reflexivity.
  destruct (World.map w !! el) eqn:M; [|reflexivity].
  exfalso. apply Hfree. eauto.
Qed.

Lemma create_spec w o el mn mx f t st :
  creatable w o el mn mx f t st ->
  World.create w o
  = (after_create w o el mn mx f t st, World.Ok (length (World.instances w))).
Proof.
  intros (Emn & Emx & Ef & Et & Est & H1 & H2 & H3 & Ec & Eq & M).
  unfold World.create. rewrite Emn, Emx, Ef, Et, Est.
  destruct (Num.ltb_spec f mn); [exfalso; lra|].
  destruct (Num.ltb_spec mx f); [exfalso; lra|]. simpl.
  destruct (Num.ltb_spec t mn); [exfalso; lra|].
  destruct (Num.ltb_spec mx t); [exfalso; lra|]. simpl.
  destruct (Num.leb_spec t f); [exfalso; lra|].
  rewrite Ec. cbn [negb].
  unfold World.new_DoubleRange, World.getElement. rewrite Ec. simpl.
  rewrite Eq.
  destruct (decide _) as [Hs|_]; [rewrite M in Hs; now destruct Hs|].
  rewrite lookup_insert_eq. simpl. rewrite Ef, Et, Est, !first_truthy_same.
  pose proof (initial_values_apart mn mx f t H1 H2 H3).
  destruct (Num.leb_spec (if Num.truthy t then t else mx)
              (if Num.truthy f then f else mn)); [exfalso; lra|].
  reflexivity.
Qed.

Lemma after_create_lookup w o el mn mx f t st :
  World.querySelectorAll (World.document w) (World.selector o) = [el] ->
  World.getBySelector (after_create w o el mn mx f t st) (World.selector o)
  = World.Ok (Some (length (World.instances w))).
Proof.
  intros Eq. unfold World.getBySelector, World.getElement, after_create. simpl.
  rewrite Eq. unfold World.getByContainer. simpl.
  rewrite lookup_insert_eq. simpl. now rewrite lookup_insert_eq.
Qed.

Lemma after_create_instance w o el mn mx f t st :
  World.instance (after_create w o el mn mx f t st)
    (World.Ok (length (World.instances w)))
  = Some (World.fresh_instance o mn mx st
            (if Num.truthy f then f else mn) (if Num.truthy t then t else mx)
            (World.trackBox (World.document w) el)
            (World.divBox (World.document w) el)).
Proof.
  unfold World.instance, after_create. simpl.
  now rewrite list_lookup_middle.
Qed.

(** X17.  The instance [create] returns is the one the registry gives back
    for the same selector; it is live, with no timer armed, and its bounds
    and step are those of the configuration.  The counter of the class has
    advanced by one and the instances bound before are as they were.  A
    selector is taken to name the same elements before and after the
    structure is generated. *)
Theorem create_registers w o w' id :
  World.create w o = (w', World.Ok id) ->
  World.getBySelector w' (World.selector o) = World.Ok (Some id)
  /\ World.counter w' = S (World.counter w)
  /\ (forall j x, World.instances w !! j = Some x ->
        World.instances w' !! j = Some x)
  /\ exists s,
       World.instance w' (World.Ok id) = Some s
       /\ World.c_min o = Some (minValue s)
       /\ World.c_max o = Some (maxValue s)
       /\ World.c_step o = Some (step s)
       /\ destroyed s = false /\ pendingTimers s = [].
Proof.
  intros H. apply create_fresh in H
    as (el & mn & mx & f & t & st & C & -> & ->).
  pose proof C as (Emn & Emx & Ef & Et & Est & _ & _ & _ & _ & Eq & _).
  split; [now apply after_create_lookup|].
  split; [reflexivity|]. split.
  - intros j x Hj. unfold after_create. simpl.
    now apply lookup_app_l_Some.
  - eexists. split; [apply after_create_instance|].
    simpl. repeat split; assumption.
Qed.

Lemma create_registers_witness :
  let o := config None None 0 100 20 80 5 in
  let w := world_with bare_markup in
  exists w' id,
    World.create w o = (w', World.Ok id)
    /\ World.getBySelector w' (World.selector o) = World.Ok (Some id)
    /\ World.counter w' = S (World.counter w)
    /\ (forall j x, World.instances w !! j = Some x ->
          World.instances w' !! j = Some x)
    /\ exists s,
         World.instance w' (World.Ok id) = Some s
         /\ World.c_min o = Some (minValue s)
         /\ World.c_max o = Some (maxValue s)
         /\ World.c_step o = Some (step s)
         /\ destroyed s = false /\ pendingTimers s = [].
Proof.
  eexists _, _. split; [reflexivity|].
  apply (create_registers (world_with bare_markup)
           (config None None 0 100 20 80 5)).
  reflexivity.
Defined.

Lemma after_create_destroy w o el mn mx f t st :
  World.destroy (after_create w o el mn mx f t st) (length (World.instances w))
  = {| World.document := World.document (after_create w o el mn mx f t st);
       World.counter := S (World.counter w);
       World.map :=
         delete (World.freshElem (World.document w))
           (World.map (after_create w o el mn mx f t st));
       World.instances :=
         World.instances w
         ++ [(World.freshElem (World.document w),
              destroy (World.fresh_instance o mn mx st
                         (if Num.truthy f then f else mn)
                         (if Num.truthy t then t else mx)
                         (World.trackBox (World.document w) el)
                         (World.divBox (World.document w) el)))] |}.
Proof.
  unfold World.destroy, after_create.
  cbn [World.instances World.with_instance World.document World.counter
       World.map World.write World.bump].
  rewrite list_lookup_middle by reflexivity.
  cbn [destroyed World.fresh_instance]. f_equal.
  replace (length (World.instances w))
    with (length (World.instances w) + 0)%nat at 1 by lia.
  now rewrite insert_app_r.
Qed.

(** X19.  Create, destroy, look up, create again.  After [destroy()] of an
    instance [create] has returned, the instance is marked destroyed, the
    registry no longer finds it under its selector ([getBySelector] returns
    [null]), a second [destroy()] changes nothing, and [create] with the
    same configuration succeeds again.  A selector is taken to name the
    same elements before and after the structure is generated. *)
Theorem create_destroy_create w o w1 id :
  World.create w o = (w1, World.Ok id) ->
  let w2 := World.destroy w1 id in
  World.getBySelector w2 (World.selector o) = World.Ok None
  /\ (exists s, World.instance w2 (World.Ok id) = Some s /\ destroyed s = true)
  /\ World.destroy w2 id = w2
  /\ exists w3 id', World.create w2 o = (w3, World.Ok id') /\ id' <> id.
Proof.
  intros H w2. apply create_fresh in H
    as (el & mn & mx & f & t & st & C & -> & ->).
  unfold w2. clear w2. rewrite after_create_destroy.
  pose proof C as (Emn & Emx & Ef & Et & Est & H1 & H2 & H3 & Ec & Eq & M).
  split; [|split; [|split]].
  - unfold World.getBySelector, World.getElement. simpl. rewrite Eq.
    unfold World.getByContainer. simpl. rewrite lookup_insert_eq. simpl.
    now rewrite lookup_delete_eq.
  - eexists. split.
    + unfold World.instance. simpl. now rewrite list_lookup_middle.
    + reflexivity.
  - unfold World.destroy at 1. simpl.
    now rewrite list_lookup_middle.
  - match goal with |- context [World.create ?x o] => set (w2 := x) end.
    assert (C2 : creatable w2 o el mn mx f t st).
    { unfold creatable. repeat split; try assumption.
      unfold w2. simpl.
      destruct (decide (World.freshElem (World.document w) = el)) as [->|Hne].
      - now rewrite lookup_delete_eq.
      - rewrite lookup_delete_ne, lookup_insert_ne by assumption. exact M. }
    apply create_spec in C2. eexists _, _. split; [exact C2|].
    unfold w2. simpl. rewrite length_app. simpl. lia.
Qed.

Lemma create_destroy_create_witness :
  let o := config None None 0 100 20 80 5 in
  let w := world_with bare_markup in
  let w2 := World.destroy (fst (World.create w o)) 0%nat in
  World.getBySelector w2 (World.selector o) = World.Ok None
  /\ (exists s, World.instance w2 (World.Ok 0%nat) = Some s /\ destroyed s = true)
  /\ World.destroy w2 0%nat = w2
  /\ exists w3 id', World.create w2 o = (w3, World.Ok id') /\ id' <> 0%nat.
Proof.
  apply (create_destroy_create (world_with bare_markup)
           (config None None 0 100 20 80 5)).
  reflexivity.
Defined.

(** * The machine model

    The properties that turn on what a JavaScript number is, or on what a
    hook may do, are proved of a second embedding of the mutators, one that
    keeps both as the code has them.

    Numbers are IEEE 754 doubles (the primitive floats of the kernel):
    arithmetic rounds, [NaN] and the infinities exist, every comparison with
    [NaN] is false, and [===] is the comparison of doubles ([NaN] differs
    from itself, [0] equals [-0]).

    A before-change hook is user code.  It is modelled as a program that
    receives the pair [(from, to)], may call [setFrom] and [setTo] of the
    instance it guards any number of times (as the hooks of [docs/demo.js]
    do), and then answers.

    The instance is the same record as before, cut down to the fields the
    mutators, the track click and the scheduler read or write. *)

Module Js.
Import PrimFloat SpecFloat FloatOps FloatAxioms.
Local Open Scope float_scope.

Notation "x >? y" := (y <? x) (at level 70, only parsing) : float_scope.
Notation "x >=? y" := (y <=? x) (at level 70, only parsing) : float_scope.

(** ** Numbers *)

(** The double of an integer below [2^53] in absolute value. *)
Definition of_Z (n : Z) : float :=
  if (n <? 0)%Z then - of_uint63 (Uint63.of_Z (- n))
  else of_uint63 (Uint63.of_Z n).

(** [Math.round(x)]: the integer nearest to [x], the one towards plus
    infinity when two are equally near; [x] itself when it is an integer, an
    infinity or [NaN]; [-0] for [-0.5 <= x < 0].  A finite double is
    [+/- m * 2^e], an integer when [0 <= e]; otherwise it lies below [2^52]
    in absolute value and its nearest integer is computed exactly. *)
Definition Math_round (x : float) : float :=
  match Prim2SF x with
  | S754_finite s m e =>
    if (0 <=? e)%Z then x
    else
      let d := (2 ^ (- e))%Z in
      let num := if s then Z.neg m else Z.pos m in
      let n := ((2 * num + d) / (2 * d))%Z in
      if (n =? 0)%Z then (if s then -0 else 0) else of_Z n
  | _ => x
  end.

(** [Math.abs(x)]. *)
Definition Math_abs (x : float) : float := abs x.

(** The comparisons of the source as propositions. *)
Definition lt (x y : float) : Prop := (x <? y) = true.
Definition le (x y : float) : Prop := (x <=? y) = true.

(** [x === y] on numbers. *)
Definition same (x y : float) : Prop := (x =? y) = true.

Infix "<" := lt : float_scope.
Infix "<=" := le : float_scope.
Infix "===" := same (at level 70, no associativity) : float_scope.

(** *** The order of the doubles

    A double that is not [NaN] has a key; the comparison of two doubles is
    the lexicographic comparison of their keys, and is undefined when one of
    them is [NaN]. *)

Definition key (a : spec_float) : option (Z * Z * Z) :=
  match a with
  | S754_nan => None
  | S754_infinity true => Some (-2, 0, 0)%Z
  | S754_finite true m e => Some (-1, - e, Z.neg m)%Z
  | S754_zero _ => Some (0, 0, 0)%Z
  | S754_finite false m e => Some (1, e, Z.pos m)%Z
  | S754_infinity false => Some (2, 0, 0)%Z
  end.

Definition lex (p q : Z * Z * Z) : comparison :=
  let '(a, b, c) := p in
  let '(a', b', c') := q in
  match (a ?= a')%Z with
  | Eq => match (b ?= b')%Z with Eq => (c ?= c')%Z | r => r end
  | r => r
  end.

Definition compare_keys (p q : option (Z * Z * Z)) : option comparison :=
  match p, q with
  | Some p, Some q => Some (lex p q)
  | _, _ => None
  end.

Lemma SFcompare_key a b : SFcompare a b = compare_keys (key a) (key b).
Proof.
  destruct a as [[]|[]| |[] m e], b as [[]|[]| |[] m' e']; try reflexivity;
    cbn [SFcompare key compare_keys lex].
  change (-1 ?= -1)%Z with Eq. cbv iota.
  change (Z.neg m ?= Z.neg m')%Z with (CompOpp (Pos.compare m m')).
  rewrite Z.compare_opp, (Z.compare_antisym e e').
  now destruct (e ?= e')%Z.
Qed.

Lemma key_nan : key (Prim2SF nan) = None.
Proof. reflexivity. Qed.

Definition lex_lt (p q : Z * Z * Z) : Prop :=
  let '(a, b, c) := p in
  let '(a', b', c') := q in
  (a < a' \/ (a = a' /\ (b < b' \/ (b = b' /\ c < c'))))%Z.

Definition lex_eq (p q : Z * Z * Z) : Prop :=
  let '(a, b, c) := p in
  let '(a', b', c') := q in
  (a = a' /\ b = b' /\ c = c')%Z.

Lemma lex_spec p q : CompareSpec (lex_eq p q) (lex_lt p q) (lex_lt q p) (lex p q).
Proof.
  destruct p as [[a b] c], q as [[a' b'] c']. unfold lex, lex_eq, lex_lt.
  destruct (Z.compare_spec a a'); [|constructor; lia|constructor; lia].
  destruct (Z.compare_spec b b'); [|constructor; lia|constructor; lia].
  destruct (Z.compare_spec c c'); constructor; lia.
Qed.

(** Decides a goal about the order of doubles: every comparison becomes a
    comparison of keys.  The hypotheses it is to use are reverted first. *)
Ltac float_goal :=
  unfold lt, le, same, is_nan;
  rewrite ?FloatAxioms.ltb_spec, ?FloatAxioms.leb_spec,
    ?FloatAxioms.eqb_spec;
  unfold SFltb, SFleb, SFeqb;
  rewrite ?SFcompare_key, ?key_nan;
  repeat match goal with
  | |- context [key (Prim2SF ?a)] =>
    let k := fresh "k" in
    generalize (key (Prim2SF a)); intros k; destruct k as [[[? ?] ?]|]
  end;
  cbn [compare_keys negb];
  repeat match goal with
  | |- context [lex ?p ?q] => destruct (lex_spec p q)
  end;
  unfold lex_lt, lex_eq in *; cbn [negb]; intros;
  try discriminate; try reflexivity; try lia; try tauto.

Tactic Notation "float_order" := float_goal.
Tactic Notation "float_order" "using" hyp_list(Hs) :=
  generalize Hs; float_goal.

(** ** The instance *)

Record DOMRect := { rect_left : float; rect_width : float }.

(** A call a hook makes on the instance it guards. *)
Inductive SetterCall :=
| SetFrom (from : float) (fireCallback : bool)
| SetTo (to : float) (fireCallback : bool).

(** What a hook does when it is called: the calls it makes, in order (their
    results are not looked at), and what it returns. *)
Record Reaction := { calls : list SetterCall; answer : bool }.

(** A before-change hook, called with [(from, to)]. *)
Definition Hook := float -> float -> Reaction.

Record DoubleRange := mkDoubleRange {
  callbackTimer : option TimerId;
  beforeFromChange : option Hook;
  beforeToChange : option Hook;
  minValue : float;
  maxValue : float;
  step : float;
  fromValue : float;
  toValue : float;
  duringDrag : bool;
  trackRect : option DOMRect;
  (* host environment *)
  pendingTimers : list TimerId;  (* armed timeouts that have not fired *)
  nextTimerId : TimerId          (* the id the next setTimeout returns *)
}.

Definition set_values (mn mx f t : float) (s : DoubleRange) : DoubleRange :=
  mkDoubleRange (callbackTimer s) (beforeFromChange s) (beforeToChange s)
    mn mx (step s) f t (duringDrag s) (trackRect s)
    (pendingTimers s) (nextTimerId s).

Definition set_minValue (v : float) (s : DoubleRange) : DoubleRange :=
  set_values v (maxValue s) (fromValue s) (toValue s) s.
Definition set_maxValue (v : float) (s : DoubleRange) : DoubleRange :=
  set_values (minValue s) v (fromValue s) (toValue s) s.
Definition set_fromValue (v : float) (s : DoubleRange) : DoubleRange :=
  set_values (minValue s) (maxValue s) v (toValue s) s.
Definition set_toValue (v : float) (s : DoubleRange) : DoubleRange :=
  set_values (minValue s) (maxValue s) (fromValue s) v s.

Definition set_timers (ct : option TimerId) (pend : list TimerId)
    (next : TimerId) (s : DoubleRange) : DoubleRange :=
  mkDoubleRange ct (beforeFromChange s) (beforeToChange s)
    (minValue s) (maxValue s) (step s) (fromValue s) (toValue s)
    (duringDrag s) (trackRect s) pend next.

(** ** The callback scheduler *)

(** [clearTimeout(id)]. *)
Definition clearTimeout (id : TimerId) (s : DoubleRange) : DoubleRange :=
  set_timers (callbackTimer s)
    (List.filter (fun j => negb (Pos.eqb j id)) (pendingTimers s))
    (nextTimerId s) s.

(** [this.#callbackTimer = window.setTimeout(..., this.#delay)]. *)
Definition setTimeout (s : DoubleRange) : DoubleRange :=
  let id := nextTimerId s in
  set_timers (Some id) (pendingTimers s ++ [id]) (Pos.succ id) s.

(** [#scheduleCallback()]. *)
Definition scheduleCallback (s : DoubleRange) : DoubleRange :=
  let s := match callbackTimer s with
           | Some id => clearTimeout id s
           | None => s
           end in
  if duringDrag s then s else setTimeout s.

Definition fire (fireCallback : bool) (s : DoubleRange) : DoubleRange :=
  if fireCallback then scheduleCallback s else s.

(** ** The mutators *)

(** What a method that can throw leaves behind. *)
Inductive Completion :=
| Return (s : DoubleRange)
| Throw (e : Error) (s : DoubleRange).

Definition state_of (c : Completion) : DoubleRange :=
  match c with Return s => s | Throw _ s => s end.

Definition throws (c : Completion) : bool :=
  match c with Return _ => false | Throw _ _ => true end.

(** [setMin(min, fireCallback = true)]. *)
Definition setMin (s : DoubleRange) (min : float) (fireCallback : bool)
    : Completion :=
  if min >=? maxValue s then Throw RangeError s
  else if min >? fromValue s then Throw RangeError s
  else Return (fire fireCallback (set_minValue min s)).

(** [setMax(max, fireCallback = true)]. *)
Definition setMax (s : DoubleRange) (max : float) (fireCallback : bool)
    : Completion :=
  if max <=? minValue s then Throw RangeError s
  else if max <? toValue s then Throw RangeError s
  else Return (fire fireCallback (set_maxValue max s)).

(** How a call of [setFrom] or [setTo] ends: it returns [this] or [false],
    or the call stack runs out under it and the exception passes through
    every frame (nothing catches it). *)
Inductive Exit :=
| Returns (r : Returned)
| Overflows.

(** The calls a hook makes, one after the other on the instance as the
    previous one left it; [exec] runs one call.  An exception ends the
    hook. *)
Fixpoint reenter (exec : DoubleRange -> SetterCall -> DoubleRange * Exit)
    (s : DoubleRange) (cs : list SetterCall) : DoubleRange * Exit :=
  match cs with
  | [] => (s, Returns This)
  | c :: cs =>
    match exec s c with
    | (s', Returns _) => reenter exec s' cs
    | (s', Overflows) => (s', Overflows)
    end
  end.

(** [return false] after the corrective self-call, whatever it returned. *)
Definition failing (r : DoubleRange * Exit) : DoubleRange * Exit :=
  match r with
  | (s', Returns _) => (s', Returns (False_ Ordering))
  | (s', Overflows) => (s', Overflows)
  end.

(** [setFrom(from, fireCallback = true)] and [setTo(to, fireCallback =
    true)].  [fuel] bounds the depth of the call stack.  The hook is called
    on the instance as it is after the checks; what it answers decides
    between [return false] and the write, which is made on the instance as
    the hook left it. *)
Fixpoint setFrom (fuel : nat) (s : DoubleRange) (from : float)
    (fireCallback : bool) {struct fuel} : DoubleRange * Exit :=
  match fuel with
  | O => (s, Overflows)
  | S fuel =>
    if (from <? minValue s) || (from >? maxValue s) then
      (s, Returns (False_ OutOfRange))
    else if from >=? toValue s then
      failing (setFrom fuel s (toValue s - step s) true)
    else if from =? toValue s then
      (s, Returns (False_ SameAsTo))
    else
      match beforeFromChange s with
      | Some hook =>
        let r := hook from (toValue s) in
        match reenter (fun s c =>
                         match c with
                         | SetFrom v f => setFrom fuel s v f
                         | SetTo v f => setTo fuel s v f
                         end) s (calls r) with
        | (s', Overflows) => (s', Overflows)
        | (s', Returns _) =>
          if answer r then
            (fire fireCallback (set_fromValue from s'), Returns This)
          else (s', Returns (False_ Vetoed))
        end
      | None => (fire fireCallback (set_fromValue from s), Returns This)
      end
  end
with setTo (fuel : nat) (s : DoubleRange) (to : float)
    (fireCallback : bool) {struct fuel} : DoubleRange * Exit :=
  match fuel with
  | O => (s, Overflows)
  | S fuel =>
    if (to <? minValue s) || (to >? maxValue s) then
      (s, Returns (False_ OutOfRange))
    else if to <=? fromValue s then
      failing (setTo fuel s (fromValue s + step s) true)
    else if to =? toValue s then
      (s, Returns (False_ SameAsTo))
    else
      match beforeToChange s with
      | Some hook =>
        let r := hook (fromValue s) to in
        match reenter (fun s c =>
                         match c with
                         | SetFrom v f => setFrom fuel s v f
                         | SetTo v f => setTo fuel s v f
                         end) s (calls r) with
        | (s', Overflows) => (s', Overflows)
        | (s', Returns _) =>
          if answer r then
            (fire fireCallback (set_toValue to s'), Returns This)
          else (s', Returns (False_ Vetoed))
        end
      | None => (fire fireCallback (set_toValue to s), Returns This)
      end
  end.

(** One call of a hook, with [fuel] frames left. *)
Definition exec (fuel : nat) (s : DoubleRange) (c : SetterCall)
    : DoubleRange * Exit :=
  match c with
  | SetFrom v f => setFrom fuel s v f
  | SetTo v f => setTo fuel s v f
  end.

(** The argument of [update]. *)
Record UpdateOptions := {
  o_min : option float;
  o_max : option float;
  o_from : option float;
  o_to : option float
}.

(** [o[key] !== undefined ? o[key] : current[key]]. *)
Definition or_current (x : option float) (current : float) : float :=
  match x with Some v => v | None => current end.

(** [update(o, fireCallback = true)], for a plain object [o]. *)
Definition update (s : DoubleRange) (o : UpdateOptions) (fireCallback : bool)
    : Completion :=
  let next_min := or_current (o_min o) (minValue s) in
  let next_max := or_current (o_max o) (maxValue s) in
  let next_from := or_current (o_from o) (fromValue s) in
  let next_to := or_current (o_to o) (toValue s) in
  if next_min >=? next_max then Throw RangeError s
  else if (next_from <? next_min) || (next_from >? next_max) then Throw RangeError s
  else if (next_to <? next_min) || (next_to >? next_max) then Throw RangeError s
  else if next_from >=? next_to then Throw RangeError s
  else Return (fire fireCallback (set_values next_min next_max next_from next_to s)).

Definition getFrom (s : DoubleRange) : float := fromValue s.
Definition getTo (s : DoubleRange) : float := toValue s.
Definition getMin (s : DoubleRange) : float := minValue s.
Definition getMax (s : DoubleRange) : float := maxValue s.

(** ** The track click *)

(** The value a click at [clientX] proposes: the position on the track as a
    fraction (not clamped), the value there, and the step nearest to it. *)
Definition click_candidate (s : DoubleRange) (r : DOMRect) (clientX : float)
    : float :=
  let percent := (clientX - rect_left r) / rect_width r in
  let value := minValue s + percent * (maxValue s - minValue s) in
  Math_round ((value - minValue s) / step s) * step s + minValue s.

(** A handler that calls a setter and drops what it returns: the instance
    it leaves, and whether it returned ([false]: an exception left it). *)
Definition finished (r : DoubleRange * Exit) : DoubleRange * bool :=
  match r with
  | (s', Returns _) => (s', true)
  | (s', Overflows) => (s', false)
  end.

(** [#trackClicked(e)], with [clientX = e.clientX]. *)
Definition trackClicked (fuel : nat) (s : DoubleRange) (clientX : float)
    : DoubleRange * bool :=
  match trackRect s with
  | None => (s, true)
  | Some r =>
    let snapped := click_candidate s r clientX in
    if Math_abs (snapped - fromValue s) <? Math_abs (snapped - toValue s) then
      finished (setFrom fuel s snapped true)
    else
      finished (setTo fuel s snapped true)
  end.

(** ** Sample instances

    The sliders of [docs/demo.js] as [create] leaves them, and the slider of
    the header of the source. *)

Definition sample_track : DOMRect := {| rect_left := 0; rect_width := 100 |}.

Definition created (hookFrom hookTo : option Hook) (mn mx f t st : float)
    : DoubleRange :=
  {| callbackTimer := None;
     beforeFromChange := hookFrom; beforeToChange := hookTo;
     minValue := mn; maxValue := mx; step := st;
     fromValue := f; toValue := t;
     duringDrag := false; trackRect := Some sample_track;
     pendingTimers := []; nextTimerId := 1%positive |}.

(** [beforeFromChangeFn] of Example 3: a gap below 100 is refused, and
    [from] is moved to [to - 100] instead. *)
Definition beforeFromChangeFn : Hook := fun from to =>
  if to - from <? 100 then
    {| calls := [SetFrom (to - 100) true]; answer := false |}
  else {| calls := []; answer := true |}.

(** [beforeToChangeFn] of Example 3. *)
Definition beforeToChangeFn : Hook := fun from to =>
  if to - from <? 100 then
    {| calls := [SetTo (from + 100) true]; answer := false |}
  else {| calls := []; answer := true |}.

Definition example3 : DoubleRange :=
  created (Some beforeFromChangeFn) (Some beforeToChangeFn) 30 500 100 400 1.

Definition example5 : DoubleRange := created None None 5400 19600 8398 15325 1.

(** [min: 0, max: 100, step: 5], with the values and hooks given. *)
Definition sample (hookFrom hookTo : option Hook) (f t : float) : DoubleRange :=
  created hookFrom hookTo 0 100 f t 5.

(** A hook that refuses every change and leaves the instance alone. *)
Definition refuse : Hook := fun _ _ => {| calls := []; answer := false |}.

(** * Properties of the machine model *)

Definition values (s : DoubleRange) : float * float * float * float :=
  (minValue s, maxValue s, fromValue s, toValue s).

(** The ordering invariant. *)
Definition ordered (s : DoubleRange) : Prop :=
  minValue s < maxValue s
  /\ minValue s <= fromValue s
  /\ fromValue s < toValue s
  /\ toValue s <= maxValue s.

(** The timer bookkeeping of an instance. *)
Definition scheduler_of (s : DoubleRange)
    : option TimerId * list TimerId * TimerId :=
  (callbackTimer s, pendingTimers s, nextTimerId s).

(** The hook returns [false]. *)
Definition vetoes (hook : option Hook) (f t : float) : bool :=
  match hook with
  | Some h => negb (answer (h f t))
  | None => false
  end.

(** The hook never calls back into the instance. *)
Definition silent (hook : option Hook) : Prop :=
  forall h, hook = Some h -> forall f t, calls (h f t) = [].

Lemma fire_fields b s :
  values (fire b s) = values s
  /\ step (fire b s) = step s
  /\ beforeFromChange (fire b s) = beforeFromChange s
  /\ beforeToChange (fire b s) = beforeToChange s
  /\ duringDrag (fire b s) = duringDrag s
  /\ trackRect (fire b s) = trackRect s.
Proof.
  unfold fire, scheduleCallback, clearTimeout, setTimeout, values.
  destruct b, s as [[?|] ? ? ? ? ? ? ? [] ? ? ?]; simpl; repeat split.
Qed.

(** What the setters come to when the hook does not call back. *)
Lemma setFrom_silent n s v f :
  silent (beforeFromChange s) ->
  setFrom (S n) s v f
  = if (v <? minValue s) || (v >? maxValue s) then
      (s, Returns (False_ OutOfRange))
    else if v >=? toValue s then
      failing (setFrom n s (toValue s - step s) true)
    else if v =? toValue s then (s, Returns (False_ SameAsTo))
    else if vetoes (beforeFromChange s) v (toValue s) then
      (s, Returns (False_ Vetoed))
    else (fire f (set_fromValue v s), Returns This).
Proof.
  intros H. cbn [setFrom]. unfold vetoes.
  destruct (beforeFromChange s) as [h|]; [|reflexivity].
  rewrite (H h eq_refl). cbn [reenter].
  now destruct (answer _).
Qed.

Lemma setTo_silent n s v f :
  silent (beforeToChange s) ->
  setTo (S n) s v f
  = if (v <? minValue s) || (v >? maxValue s) then
      (s, Returns (False_ OutOfRange))
    else if v <=? fromValue s then
      failing (setTo n s (fromValue s + step s) true)
    else if v =? toValue s then (s, Returns (False_ SameAsTo))
    else if vetoes (beforeToChange s) (fromValue s) v then
      (s, Returns (False_ Vetoed))
    else (fire f (set_toValue v s), Returns This).
Proof.
  intros H. cbn [setTo]. unfold vetoes.
  destruct (beforeToChange s) as [h|]; [|reflexivity].
  rewrite (H h eq_refl). cbn [reenter].
  now destruct (answer _).
Qed.

(** With a silent hook a call of [setFrom] leaves the instance as it was, or
    has written one value that passed every check: its argument, or the
    corrective value. *)
Lemma setFrom_silent_shape fuel : forall s v f,
  silent (beforeFromChange s) ->
  fst (setFrom fuel s v f) = s
  \/ exists w b,
       fst (setFrom fuel s v f) = fire b (set_fromValue w s)
       /\ (w <? minValue s) = false /\ (w >=? toValue s) = false
       /\ ((w = v /\ b = f) \/ (w = toValue s - step s /\ toValue s <= v)).
Proof.
  induction fuel as [|n IH]; intros s v f H; [now left|].
  rewrite setFrom_silent by assumption.
  destruct (v <? minValue s) eqn:C1; [now left|].
  destruct (v >? maxValue s) eqn:C2; [now left|]. cbn [orb].
  destruct (v >=? toValue s) eqn:C3.
  { destruct (IH s (toValue s - step s) true H) as [E|(w & b & E & A1 & A2 & A3)].
    - left. revert E. destruct (setFrom n s _ true) as [s1 []]; simpl; auto.
    - right. exists w, b.
      split; [revert E; destruct (setFrom n s _ true) as [s1 []]; simpl; auto|].
      split; [exact A1|]. split; [exact A2|]. right. split; [|exact C3].
      destruct A3 as [[-> _]|[-> _]]; reflexivity. }
  destruct (v =? toValue s); [now left|].
  destruct (vetoes _ _ _); [now left|].
  right. exists v, f. cbn [fst]. repeat split; auto.
Qed.

Lemma setTo_silent_shape fuel : forall s v f,
  silent (beforeToChange s) ->
  fst (setTo fuel s v f) = s
  \/ exists w b,
       fst (setTo fuel s v f) = fire b (set_toValue w s)
       /\ (w >? maxValue s) = false /\ (w <=? fromValue s) = false
       /\ ((w = v /\ b = f) \/ (w = fromValue s + step s /\ v <= fromValue s)).
Proof.
  induction fuel as [|n IH]; intros s v f H; [now left|].
  rewrite setTo_silent by assumption.
  destruct (v <? minValue s) eqn:C1; [now left|].
  destruct (v >? maxValue s) eqn:C2; [now left|]. cbn [orb].
  destruct (v <=? fromValue s) eqn:C3.
  { destruct (IH s (fromValue s + step s) true H) as [E|(w & b & E & A1 & A2 & A3)].
    - left. revert E. destruct (setTo n s _ true) as [s1 []]; simpl; auto.
    - right. exists w, b.
      split; [revert E; destruct (setTo n s _ true) as [s1 []]; simpl; auto|].
      split; [exact A1|]. split; [exact A2|]. right. split; [|exact C3].
      destruct A3 as [[-> _]|[-> _]]; reflexivity. }
  destruct (v =? toValue s); [now left|].
  destruct (vetoes _ _ _); [now left|].
  right. exists v, f. cbn [fst]. repeat split; auto.
Qed.

(** ** C7: [setMin] and [setMax] let [NaN] through *)

(** C7, at the failing input.  [setMin(v)] throws a [RangeError] with the
    instance as it was whenever [v >= max] or [v > from], and [setMax(v)]
    whenever [v <= min] or [v < to]: in particular [setMax(50)] at
    [to = 60].  But the guards test the negation of what the documentation
    of the methods requires ("must be less than the current maximum"), and
    every comparison with [NaN] is false: on any instance [setMin(NaN)] and
    [setMax(NaN)] return and write [NaN], after which [min < max] does not
    hold.  On the slider of Example 5 of [docs/demo.js], whose buttons pass
    [parseInt] of a text field to these methods, [setMin(NaN)] returns and
    [getMin()] is [NaN]. *)
Theorem setMin_setMax_accept_NaN :
  (forall s v f, maxValue s <= v \/ fromValue s < v ->
     setMin s v f = Throw RangeError s)
  /\ (forall s v f, v <= minValue s \/ v < toValue s ->
        setMax s v f = Throw RangeError s)
  /\ setMax (sample None None 20 60) 50 true
     = Throw RangeError (sample None None 20 60)
  /\ (forall s f,
        setMin s nan f = Return (fire f (set_minValue nan s))
        /\ setMax s nan f = Return (fire f (set_maxValue nan s)))
  /\ (forall s f,
        ~ getMin (state_of (setMin s nan f)) < getMax (state_of (setMin s nan f))
        /\ ~ getMin (state_of (setMax s nan f)) < getMax (state_of (setMax s nan f)))
  /\ throws (setMin example5 nan true) = false
  /\ values (state_of (setMin example5 nan true)) = (nan, 19600, 8398, 15325).
Proof.
  assert (N : forall s f,
    setMin s nan f = Return (fire f (set_minValue nan s))
    /\ setMax s nan f = Return (fire f (set_maxValue nan s))).
  { intros s f. unfold setMin, setMax.
    assert (A : (nan >=? maxValue s) = false) by float_order.
    assert (B : (nan >? fromValue s) = false) by float_order.
    assert (C : (nan <=? minValue s) = false) by float_order.
    assert (D : (nan <? toValue s) = false) by float_order.
    now rewrite A, B, C, D. }
  split; [|split; [|split; [|split; [|split; [|split]]]]].
  - intros s v f H. unfold setMin.
    destruct (v >=? maxValue s) eqn:A; [reflexivity|].
    destruct (v >? fromValue s) eqn:B; [reflexivity|].
    destruct H as [H|H]; unfold le, lt in H; congruence.
  - intros s v f H. unfold setMax.
    destruct (v <=? minValue s) eqn:A; [reflexivity|].
    destruct (v <? toValue s) eqn:B; [reflexivity|].
    destruct H as [H|H]; unfold le, lt in H; congruence.
  - reflexivity.
  - exact N.
  - intros s f. destruct (N s f) as [-> ->]. cbn [state_of].
    unfold getMin, getMax.
    destruct (fire_fields f (set_minValue nan s)) as (V1 & _).
    destruct (fire_fields f (set_maxValue nan s)) as (V2 & _).
    unfold values in V1, V2. injection V1 as -> -> _ _. injection V2 as -> -> _ _.
    cbn [set_minValue set_maxValue set_values minValue maxValue].
    clear. split; float_order.
  - reflexivity.
  - reflexivity.
Qed.

(** ** C4: [update] lets [NaN] through *)

Definition only_from (v : float) : UpdateOptions :=
  {| o_min := None; o_max := None; o_from := Some v; o_to := None |}.

Definition only_to (v : float) : UpdateOptions :=
  {| o_min := None; o_max := None; o_from := None; o_to := Some v |}.

Definition bounds (mn mx : float) : UpdateOptions :=
  {| o_min := Some mn; o_max := Some mx; o_from := None; o_to := None |}.

(** C4, at the failing input.  Every check of [update] precedes its first
    write, so a call that throws leaves the instance as it was:
    [update({min: 10, max: 90})] at [from = 5] throws a [RangeError] and
    changes nothing.  But the checks are comparisons, all false on [NaN]: on
    an instance that satisfies the ordering invariant [update({from: NaN})]
    returns and writes [NaN], and the invariant is lost.  On the slider of
    Example 3 of [docs/demo.js] the values are then
    [(30, 500, NaN, 400)]. *)
Theorem update_accepts_NaN :
  (forall s o f, throws (update s o f) = true ->
     update s o f = Throw RangeError s)
  /\ update (sample None None 5 80) (bounds 10 90) true
     = Throw RangeError (sample None None 5 80)
  /\ (forall s f, ordered s ->
        update s (only_from nan) f = Return (fire f (set_fromValue nan s))
        /\ ~ ordered (state_of (update s (only_from nan) f)))
  /\ throws (update example3 (only_from nan) true) = false
  /\ values (state_of (update example3 (only_from nan) true))
     = (30, 500, nan, 400).
Proof.
  split; [|split; [|split; [|split]]].
  - intros s o f. unfold update.
    repeat match goal with
           | |- context [if ?c then _ else _] => destruct c; try reflexivity
           end.
    discriminate.
  - reflexivity.
  - intros s f (Hmm & Hmf & Hft & Htm).
    assert (E : update s (only_from nan) f = Return (fire f (set_fromValue nan s))).
    { unfold update, only_from, or_current. cbn [o_min o_max o_from o_to].
      assert (A : (minValue s >=? maxValue s) = false) by (float_order using Hmm).
      assert (B : (nan <? minValue s) = false) by float_order.
      assert (C : (nan >? maxValue s) = false) by float_order.
      assert (D : (toValue s <? minValue s) = false)
        by (float_order using Hmf Hft).
      assert (F : (toValue s >? maxValue s) = false) by (float_order using Htm).
      assert (G : (nan >=? toValue s) = false) by float_order.
      rewrite A, B, C, D, F, G. reflexivity. }
    split; [exact E|]. rewrite E. cbn [state_of].
    intros (_ & H & _). revert H.
    destruct (fire_fields f (set_fromValue nan s)) as (V & _).
    unfold values in V. injection V as -> _ -> _.
    cbn [set_fromValue set_values fromValue]. clear. float_order.
  - reflexivity.
  - reflexivity.
Qed.

(** ** C6: [setFrom] then [getFrom] *)

(** The claim as it stands fails on a veto of the value the instance has
    already: with [from = 20] and a hook that refuses everything,
    [setFrom(20)] is vetoed and [getFrom()] returns [20].  And a hook may
    write on its own: with the hook of Example 3 of [docs/demo.js] on
    [from: 350, to: 400], [setFrom(350)] is vetoed too, and [getFrom()]
    returns the [300] the hook has set. *)
Lemma round_trip_fails_on_veto :
  (let s := sample (Some refuse) None 20 80 in
   vetoes (beforeFromChange s) 20 (toValue s) = true
   /\ setFrom 1 s 20 true = (s, Returns (False_ Vetoed))
   /\ getFrom (fst (setFrom 1 s 20 true)) = 20)
  /\ (let s := created (Some beforeFromChangeFn) (Some beforeToChangeFn)
                 30 500 350 400 1 in
      vetoes (beforeFromChange s) 350 (toValue s) = true
      /\ snd (setFrom 2 s 350 true) = Returns (False_ Vetoed)
      /\ getFrom (fst (setFrom 2 s 350 true)) = 300).
Proof. repeat split. Qed.

(** C6 (amended).  On an instance that satisfies the ordering invariant,
    with a hook that does not call back into the instance, and for every
    number [v] other than [NaN]: after [setFrom(v)] (whether it returned or
    the call stack ran out under its self-call), [getFrom() === v] exactly
    when [min <= v < to] and either the hook does not veto [(v, to)] or
    [from] was [v] already. *)
Theorem setFrom_getFrom_round_trip n s v f :
  ordered s -> is_nan v = false -> silent (beforeFromChange s) ->
  getFrom (fst (setFrom (S n) s v f)) === v
  <-> minValue s <= v /\ v < toValue s
      /\ (vetoes (beforeFromChange s) v (toValue s) = false
          \/ fromValue s === v).
Proof.
  intros (Hmm & Hmf & Hft & Htm) Hv Hh. unfold getFrom.
  rewrite setFrom_silent by assumption.
  destruct (v <? minValue s) eqn:C1.
  { cbn [orb fst]. split; [intros E | intros (E & _)]; exfalso.
    - revert E. float_order using C1 Hmf.
    - revert E. float_order using C1. }
  destruct (v >? maxValue s) eqn:C2.
  { cbn [orb fst]. split; [intros E | intros (_ & E & _)]; exfalso.
    - revert E. float_order using C2 Hft Htm.
    - revert E. float_order using C2 Htm. }
  cbn [orb].
  destruct (v >=? toValue s) eqn:C3.
  { split; [intros E | intros (_ & E & _)]; exfalso.
    - destruct (setFrom_silent_shape n s (toValue s - step s) true Hh)
        as [K|(w & b & K & A1 & A2 & _)];
        destruct (setFrom n s (toValue s - step s) true) as [s1 []];
        cbn [failing fst] in *; subst s1; revert E.
      + float_order using C3 Hft.
      + float_order using C3 Hft.
      + destruct (fire_fields b (set_fromValue w s)) as (V & _).
        unfold values in V. injection V as _ _ -> _.
        cbn [set_fromValue set_values fromValue]. float_order using C3 A2.
      + destruct (fire_fields b (set_fromValue w s)) as (V & _).
        unfold values in V. injection V as _ _ -> _.
        cbn [set_fromValue set_values fromValue]. float_order using C3 A2.
    - revert E. float_order using C3. }
  destruct (v =? toValue s) eqn:C4.
  { exfalso. float_order using C3 C4. }
  assert (R1 : minValue s <= v) by (float_order using C1 Hv Hmm).
  assert (R2 : v < toValue s) by (float_order using C3 Hv Hft).
  destruct (vetoes (beforeFromChange s) v (toValue s)) eqn:V; cbn [fst].
  - split; [intros E; auto|]. intros (_ & _ & [E|E]); [discriminate | exact E].
  - destruct (fire_fields f (set_fromValue v s)) as (W & _).
    unfold values in W. injection W as _ _ -> _.
    cbn [set_fromValue set_values fromValue].
    split; [intros _; auto|]. intros _. float_order using Hv.
Qed.

Lemma setFrom_getFrom_round_trip_witness :
  getFrom (fst (setFrom 1 (sample None None 20 80) 30 true)) === 30
  <-> minValue (sample None None 20 80) <= 30
      /\ 30 < toValue (sample None None 20 80)
      /\ (vetoes (beforeFromChange (sample None None 20 80)) 30
            (toValue (sample None None 20 80)) = false
          \/ fromValue (sample None None 20 80) === 30).
Proof.
  apply (setFrom_getFrom_round_trip 0 (sample None None 20 80) 30 true).
  - repeat split.
  - reflexivity.
  - intros h H. discriminate H.
Defined.

(** ** C2: the corrective self-call *)

(** What the calls of the hook leave when it is asked about [(f, t)] on
    instance [s], with [fuel] frames left for them. *)
Definition asked (fuel : nat) (hook : option Hook) (s : DoubleRange)
    (f t : float) : DoubleRange * Exit :=
  match hook with
  | Some h => reenter (exec fuel) s (calls (h f t))
  | None => (s, Returns This)
  end.

(** A value that passes the checks of [setFrom] is put to the hook, and
    written on the instance as the hook left it unless the hook vetoes. *)
Lemma setFrom_checked n s w b s1 :
  (w <? minValue s) = false -> (w >? maxValue s) = false ->
  (w >=? toValue s) = false ->
  asked n (beforeFromChange s) s w (toValue s) = (s1, Returns This) ->
  setFrom (S n) s w b
  = if vetoes (beforeFromChange s) w (toValue s) then
      (s1, Returns (False_ Vetoed))
    else (fire b (set_fromValue w s1), Returns This).
Proof.
  intros C1 C2 C3 A. cbn [setFrom]. rewrite C1, C2, C3. cbn [orb].
  assert (C4 : (w =? toValue s) = false) by (float_order using C3).
  rewrite C4. unfold asked, vetoes in *.
  destruct (beforeFromChange s) as [h|].
  - change (fun s c => match c with
                       | SetFrom v f => setFrom n s v f
                       | SetTo v f => setTo n s v f
                       end) with (exec n).
    rewrite A. now destruct (answer _).
  - now injection A as <-.
Qed.

Lemma setTo_checked n s w b s1 :
  (w <? minValue s) = false -> (w >? maxValue s) = false ->
  (w <=? fromValue s) = false -> (w =? toValue s) = false ->
  asked n (beforeToChange s) s (fromValue s) w = (s1, Returns This) ->
  setTo (S n) s w b
  = if vetoes (beforeToChange s) (fromValue s) w then
      (s1, Returns (False_ Vetoed))
    else (fire b (set_toValue w s1), Returns This).
Proof.
  intros C1 C2 C3 C4 A. cbn [setTo]. rewrite C1, C2, C3, C4. cbn [orb].
  unfold asked, vetoes in *.
  destruct (beforeToChange s) as [h|].
  - change (fun s c => match c with
                       | SetFrom v f => setFrom n s v f
                       | SetTo v f => setTo n s v f
                       end) with (exec n).
    rewrite A. now destruct (answer _).
  - now injection A as <-.
Qed.






(** ** C5: a click on the track *)

(** With a silent hook the thumb a setter is not about keeps its value. *)
Lemma setFrom_leaves_to fuel s v f :
  silent (beforeFromChange s) ->
  toValue (fst (setFrom fuel s v f)) = toValue s.
Proof.
  intros H.
  destruct (setFrom_silent_shape fuel s v f H) as [->|(w & b & -> & _)];
    [reflexivity|].
  destruct (fire_fields b (set_fromValue w s)) as (V & _).
  unfold values in V. now injection V as _ _ _ ->.
Qed.

Lemma setTo_leaves_from fuel s v f :
  silent (beforeToChange s) ->
  fromValue (fst (setTo fuel s v f)) = fromValue s.
Proof.
  intros H.
  destruct (setTo_silent_shape fuel s v f H) as [->|(w & b & -> & _)];
    [reflexivity|].
  destruct (fire_fields b (set_toValue w s)) as (V & _).
  unfold values in V. now injection V as _ _ -> _.
Qed.

(** The claim as it stands fails on the tie: with [from: 20, to: 80] a click
    that snaps to [50] is as far from one thumb as from the other, and it is
    the "to" thumb that moves. *)
Lemma track_click_tie_moves_to :
  let s := sample None None 20 80 in
  click_candidate s sample_track 50 = 50
  /\ Math_abs (50 - fromValue s) === Math_abs (50 - toValue s)
  /\ values (fst (trackClicked 1 s 50)) = (0, 100, 20, 50).
Proof. repeat split. Qed.

(** C5 (amended).  A click on the track proposes the value computed from
    the fraction [(clientX - left) / width] as it is, not clamped to the
    track.  [setFrom] is called with it when its distance to [from], as the
    code computes it, is strictly smaller than its distance to [to];
    [setTo] is called otherwise, so the "to" thumb wins exact ties.  With
    silent hooks the other thumb keeps its value.  With [from: 20, to: 80]
    a click that snaps to [53] yields [from: 20, to: 53]; a click beyond
    the right end of the track proposes a value above [max], which the
    setter refuses.  The arithmetic is that of doubles: with [step: 2] on a
    track of width [100] a click at [29] snaps to [28], since
    [0.29 * 100] falls below [29]. *)
Theorem track_click_moves_nearer_thumb :
  (forall fuel s r x,
     trackRect s = Some r ->
     let c := click_candidate s r x in
     c = Math_round ((minValue s
                      + (x - rect_left r) / rect_width r
                        * (maxValue s - minValue s)
                      - minValue s) / step s) * step s + minValue s
     /\ (Math_abs (c - fromValue s) < Math_abs (c - toValue s) ->
         trackClicked fuel s x = finished (setFrom fuel s c true))
     /\ ((Math_abs (c - fromValue s) <? Math_abs (c - toValue s)) = false ->
         trackClicked fuel s x = finished (setTo fuel s c true))
     /\ (Math_abs (c - fromValue s) === Math_abs (c - toValue s) ->
         trackClicked fuel s x = finished (setTo fuel s c true))
     /\ (silent (beforeFromChange s) ->
         toValue (fst (setFrom fuel s c true)) = toValue s)
     /\ (silent (beforeToChange s) ->
         fromValue (fst (setTo fuel s c true)) = fromValue s))
  /\ (let s := created None None 0 100 20 80 1 in
      click_candidate s sample_track 53 = 53
      /\ values (fst (trackClicked 1 s 53)) = (0, 100, 20, 53))
  /\ (let s := created None None 0 100 20 80 1 in
      click_candidate s sample_track 150 = 150
      /\ trackClicked 1 s 150 = (s, true))
  /\ (let s := created None None 0 100 20 80 2 in
      (29 - 0) / 100 * (100 - 0) < 29
      /\ click_candidate s sample_track 29 = 28).
Proof.
  split; [|split; [|split]; repeat split].
  intros fuel s r x Hr c.
  assert (A : (Math_abs (c - fromValue s) <? Math_abs (c - toValue s)) = false ->
              trackClicked fuel s x = finished (setTo fuel s c true)).
  { intros H. unfold trackClicked. rewrite Hr. fold c. now rewrite H. }
  split; [reflexivity|]. split; [|split; [|split; [|split]]].
  - intros H. unfold trackClicked. rewrite Hr. fold c. now rewrite H.
  - exact A.
  - intros H. apply A. float_order using H.
  - apply setFrom_leaves_to.
  - apply setTo_leaves_from.
Qed.

Lemma track_click_moves_nearer_thumb_witness :
  let s := sample None None 20 80 in
  let c := click_candidate s sample_track 30 in
  c = 30
  /\ trackClicked 1 s 30 = finished (setFrom 1 s c true)
  /\ values (fst (trackClicked 1 s 30)) = (0, 100, 30, 80).
Proof.
  split; [reflexivity|]. split; [|reflexivity].
  apply (proj1 (proj2 (proj1 track_click_moves_nearer_thumb 1%nat
                         (sample None None 20 80) sample_track 30 eq_refl))).
  reflexivity.
Defined.

(** ** Further properties of the machine model *)

(** X1.  On an instance that satisfies the ordering invariant, with a hook
    that does not call back, and for every number [v] other than [NaN]:
    after [setTo(v)] (whether it returned or the call stack ran out under
    its self-call), [getTo() === v] exactly when [from < v <= max] and
    either the hook does not veto [(from, v)] or [to] was [v] already. *)
Theorem setTo_getTo_round_trip n s v f :
  ordered s -> is_nan v = false -> silent (beforeToChange s) ->
  getTo (fst (setTo (S n) s v f)) === v
  <-> fromValue s < v /\ v <= maxValue s
      /\ (vetoes (beforeToChange s) (fromValue s) v = false
          \/ toValue s === v).
Proof.
  intros (Hmm & Hmf & Hft & Htm) Hv Hh. unfold getTo.
  rewrite setTo_silent by assumption.
  destruct (v <? minValue s) eqn:C1.
  { cbn [orb fst]. split; [intros E | intros (E & _)]; exfalso.
    - revert E. float_order using C1 Hmf Hft.
    - revert E. float_order using C1 Hmf. }
  destruct (v >? maxValue s) eqn:C2.
  { cbn [orb fst]. split; [intros E | intros (_ & E & _)]; exfalso.
    - revert E. float_order using C2 Htm.
    - revert E. float_order using C2. }
  cbn [orb].
  destruct (v <=? fromValue s) eqn:C3.
  { split; [intros E | intros (E & _)]; exfalso.
    - destruct (setTo_silent_shape n s (fromValue s + step s) true Hh)
        as [K|(w & b & K & A1 & A2 & _)];
        destruct (setTo n s (fromValue s + step s) true) as [s1 []];
        cbn [failing fst] in *; subst s1; revert E.
      + float_order using C3 Hft.
      + float_order using C3 Hft.
      + destruct (fire_fields b (set_toValue w s)) as (V & _).
        unfold values in V. injection V as _ _ _ ->.
        cbn [set_toValue set_values toValue]. float_order using C3 A2.
      + destruct (fire_fields b (set_toValue w s)) as (V & _).
        unfold values in V. injection V as _ _ _ ->.
        cbn [set_toValue set_values toValue]. float_order using C3 A2.
    - revert E. float_order using C3. }
  assert (R1 : fromValue s < v) by (float_order using C3 Hv Hft).
  assert (R2 : v <= maxValue s) by (float_order using C2 Hv Hmm).
  destruct (v =? toValue s) eqn:C4.
  { cbn [fst]. split.
    - intros _. split; [exact R1|]. split; [exact R2|]. right.
      float_order using C4.
    - intros _. float_order using C4. }
  destruct (vetoes (beforeToChange s) (fromValue s) v) eqn:V; cbn [fst].
  - split; [intros E; auto|]. intros (_ & _ & [E|E]); [discriminate | exact E].
  - destruct (fire_fields f (set_toValue v s)) as (W & _).
    unfold values in W. injection W as _ _ _ ->.
    cbn [set_toValue set_values toValue].
    split; [intros _; auto|]. intros _. float_order using Hv.
Qed.

Lemma setTo_getTo_round_trip_witness :
  getTo (fst (setTo 1 (sample None None 20 80) 60 true)) === 60
  <-> fromValue (sample None None 20 80) < 60
      /\ 60 <= maxValue (sample None None 20 80)
      /\ (vetoes (beforeToChange (sample None None 20 80))
            (fromValue (sample None None 20 80)) 60 = false
          \/ toValue (sample None None 20 80) === 60).
Proof.
  apply (setTo_getTo_round_trip 0 (sample None None 20 80) 60 true).
  - repeat split.
  - reflexivity.
  - intros h H. discriminate H.
Defined.

(** X2.  On an instance that satisfies the ordering invariant and for every
    number [v] other than [NaN]: after [setMin(v)] (whether it returned or
    threw) [getMin() === v] exactly when [v < max] and [v <= from]; after
    [setMax(v)], [getMax() === v] exactly when [min < v] and [to <= v]. *)
Theorem setMin_setMax_round_trip s v f :
  ordered s -> is_nan v = false ->
  (getMin (state_of (setMin s v f)) === v
   <-> v < maxValue s /\ v <= fromValue s)
  /\ (getMax (state_of (setMax s v f)) === v
      <-> minValue s < v /\ toValue s <= v).
Proof.
  intros (Hmm & Hmf & Hft & Htm) Hv. unfold getMin, getMax, setMin, setMax.
  split.
  - destruct (v >=? maxValue s) eqn:C1; cbn [state_of].
    { split; [intros E | intros (E & _)]; exfalso; revert E.
      - float_order using C1 Hmm.
      - float_order using C1. }
    destruct (v >? fromValue s) eqn:C2; cbn [state_of].
    { split; [intros E | intros (_ & E)]; exfalso; revert E.
      - float_order using C2 Hmf.
      - float_order using C2. }
    destruct (fire_fields f (set_minValue v s)) as (W & _).
    unfold values in W. injection W as -> _ _ _.
    cbn [set_minValue set_values minValue].
    split; intros _; [split|].
    + float_order using C1 Hv Hmm.
    + float_order using C2 Hv Hmf.
    + float_order using Hv.
  - destruct (v <=? minValue s) eqn:C1; cbn [state_of].
    { split; [intros E | intros (E & _)]; exfalso; revert E.
      - float_order using C1 Hmm.
      - float_order using C1. }
    destruct (v <? toValue s) eqn:C2; cbn [state_of].
    { split; [intros E | intros (_ & E)]; exfalso; revert E.
      - float_order using C2 Htm.
      - float_order using C2. }
    destruct (fire_fields f (set_maxValue v s)) as (W & _).
    unfold values in W. injection W as _ -> _ _.
    cbn [set_maxValue set_values maxValue].
    split; intros _; [split|].
    + float_order using C1 Hv Hmm.
    + float_order using C2 Hv Htm.
    + float_order using Hv.
Qed.

Lemma setMin_setMax_round_trip_witness :
  (getMin (state_of (setMin (sample None None 20 80) 10 true)) === 10
   <-> 10 < maxValue (sample None None 20 80)
       /\ 10 <= fromValue (sample None None 20 80))
  /\ (getMax (state_of (setMax (sample None None 20 80) 10 true)) === 10
      <-> minValue (sample None None 20 80) < 10
          /\ toValue (sample None None 20 80) <= 10).
Proof.
  apply (setMin_setMax_round_trip (sample None None 20 80) 10 true).
  - repeat split.
  - reflexivity.
Defined.

(** X3.  A mutator called with [fireCallback = false] arms no timer of its
    own.  [setMin], [setMax] and [update] leave the scheduler as it is,
    whether they return or throw.  [setFrom] and [setTo], unless they take
    the corrective self-call, leave it as the hook left it; with a hook
    that does not call back, as it was. *)
Theorem silent_update_leaves_scheduler s v o :
  scheduler_of (state_of (setMin s v false)) = scheduler_of s
  /\ scheduler_of (state_of (setMax s v false)) = scheduler_of s
  /\ scheduler_of (state_of (update s o false)) = scheduler_of s
  /\ (forall n s1,
        (v >=? toValue s) = false ->
        asked n (beforeFromChange s) s v (toValue s) = (s1, Returns This) ->
        scheduler_of (fst (setFrom (S n) s v false))
        = scheduler_of (if (v <? minValue s) || (v >? maxValue s) then s else s1))
  /\ (forall n s1,
        (v <=? fromValue s) = false ->
        asked n (beforeToChange s) s (fromValue s) v = (s1, Returns This) ->
        scheduler_of (fst (setTo (S n) s v false))
        = scheduler_of (if (v <? minValue s) || (v >? maxValue s)
                           || (v =? toValue s) then s else s1))
  /\ (forall n,
        (v >=? toValue s) = false -> silent (beforeFromChange s) ->
        scheduler_of (fst (setFrom (S n) s v false)) = scheduler_of s)
  /\ (forall n,
        (v <=? fromValue s) = false -> silent (beforeToChange s) ->
        scheduler_of (fst (setTo (S n) s v false)) = scheduler_of s).
Proof.
  split; [|split; [|split; [|split; [|split; [|split]]]]].
  - unfold setMin. destruct (_ <=? _); [reflexivity|].
    destruct (_ <? _); reflexivity.
  - unfold setMax. destruct (_ <=? _); [reflexivity|].
    destruct (_ <? _); reflexivity.
  - unfold update.
    repeat match goal with
           | |- context [if ?c then _ else _] => destruct c; try reflexivity
           end.
  - intros n s1 C3 A.
    destruct (v <? minValue s) eqn:C1;
      [cbn [setFrom]; rewrite C1; reflexivity|].
    destruct (v >? maxValue s) eqn:C2;
      [cbn [setFrom]; rewrite C1, C2; reflexivity|].
    rewrite (setFrom_checked n s v false s1) by assumption.
    now destruct (vetoes _ _ _).
  - intros n s1 C3 A.
    destruct (v <? minValue s) eqn:C1;
      [cbn [setTo]; rewrite C1; reflexivity|].
    destruct (v >? maxValue s) eqn:C2;
      [cbn [setTo]; rewrite C1, C2; reflexivity|].
    destruct (v =? toValue s) eqn:C4;
      [cbn [setTo]; rewrite C1, C2, C3, C4; reflexivity|].
    rewrite (setTo_checked n s v false s1) by assumption.
    now destruct (vetoes _ _ _).
  - intros n C3 H. rewrite setFrom_silent by assumption. rewrite C3.
    destruct (_ || _); [reflexivity|].
    destruct (_ =? _); [reflexivity|].
    destruct (vetoes _ _ _); reflexivity.
  - intros n C3 H. rewrite setTo_silent by assumption. rewrite C3.
    destruct (_ || _); [reflexivity|].
    destruct (_ =? _); [reflexivity|].
    destruct (vetoes _ _ _); reflexivity.
Qed.

(** X14.  [update] does not consult the hooks.  On an instance that
    satisfies the ordering invariant, a value [v] with [min <= v < to] that
    [beforeFromChange] vetoes is never accepted by [setFrom(v)], which
    leaves the instance as the hook left it (as it was, when the hook does
    not call back); [update({from: v})] returns and writes it.  Likewise
    for [to], [setTo] and [beforeToChange]. *)
Theorem update_bypasses_hooks n s v f :
  ordered s ->
  (minValue s <= v -> v < toValue s ->
   vetoes (beforeFromChange s) v (toValue s) = true ->
   snd (setFrom (S n) s v f) <> Returns This
   /\ (silent (beforeFromChange s) ->
       setFrom (S n) s v f = (s, Returns (False_ Vetoed)))
   /\ update s (only_from v) f = Return (fire f (set_fromValue v s)))
  /\ (fromValue s < v -> v <= maxValue s -> (v =? toValue s) = false ->
      vetoes (beforeToChange s) (fromValue s) v = true ->
      snd (setTo (S n) s v f) <> Returns This
      /\ (silent (beforeToChange s) ->
          setTo (S n) s v f = (s, Returns (False_ Vetoed)))
      /\ update s (only_to v) f = Return (fire f (set_toValue v s))).
Proof.
  intros (Hmm & Hmf & Hft & Htm). split.
  - intros H1 H2 V.
    assert (C1 : (v <? minValue s) = false) by (float_order using H1).
    assert (C2 : (v >? maxValue s) = false) by (float_order using H2 Htm).
    assert (C3 : (v >=? toValue s) = false) by (float_order using H2).
    assert (C4 : (v =? toValue s) = false) by (float_order using H2).
    split; [|split].
    + cbn [setFrom]. rewrite C1, C2, C3, C4. cbn [orb].
      unfold vetoes in V. destruct (beforeFromChange s) as [h|]; [|discriminate].
      destruct (reenter _ s _) as [s1 []]; cbn [snd]; [|discriminate].
      destruct (answer _); [discriminate|]. cbn [snd]. discriminate.
    + intros H. rewrite setFrom_silent by assumption.
      now rewrite C1, C2, C3, C4, V.
    + unfold update, only_from, or_current. cbn [o_min o_max o_from o_to].
      assert (A : (minValue s >=? maxValue s) = false) by (float_order using Hmm).
      assert (D : (toValue s <? minValue s) = false)
        by (float_order using Hmf Hft).
      assert (F : (toValue s >? maxValue s) = false) by (float_order using Htm).
      rewrite A, C1, C2, D, F, C3. reflexivity.
  - intros H1 H2 C4 V.
    assert (C1 : (v <? minValue s) = false) by (float_order using H1 Hmf).
    assert (C2 : (v >? maxValue s) = false) by (float_order using H2).
    assert (C3 : (v <=? fromValue s) = false) by (float_order using H1).
    split; [|split].
    + cbn [setTo]. rewrite C1, C2, C3, C4. cbn [orb].
      unfold vetoes in V. destruct (beforeToChange s) as [h|]; [|discriminate].
      destruct (reenter _ s _) as [s1 []]; cbn [snd]; [|discriminate].
      destruct (answer _); [discriminate|]. cbn [snd]. discriminate.
    + intros H. rewrite setTo_silent by assumption.
      now rewrite C1, C2, C3, C4, V.
    + unfold update, only_to, or_current. cbn [o_min o_max o_from o_to].
      assert (A : (minValue s >=? maxValue s) = false) by (float_order using Hmm).
      assert (D : (fromValue s <? minValue s) = false) by (float_order using Hmf).
      assert (F : (fromValue s >? maxValue s) = false)
        by (float_order using Hft Htm).
      assert (G : (fromValue s >=? v) = false) by (float_order using H1).
      rewrite A, D, F, C1, C2, G. reflexivity.
Qed.

Lemma update_bypasses_hooks_witness :
  let s := sample (Some refuse) None 20 80 in
  snd (setFrom 1 s 30 true) <> Returns This
  /\ (silent (beforeFromChange s) ->
      setFrom 1 s 30 true = (s, Returns (False_ Vetoed)))
  /\ update s (only_from 30) true = Return (fire true (set_fromValue 30 s)).
Proof.
  apply (proj1 (update_bypasses_hooks 0 (sample (Some refuse) None 20 80) 30 true
                  ltac:(repeat split)));
    reflexivity.
Defined.

(** X20.  [NaN] passes every guard of [setFrom] and of [setTo]: unless the
    hook vetoes, [NaN] is written (on the instance as the hook left it) and
    [this] is returned.  Without a hook, [getFrom()] is [NaN] afterwards and
    the ordering invariant is lost.  On the slider of Example 5 of
    [docs/demo.js], whose buttons pass [parseInt] of a text field to the
    setters, [setFrom(NaN)] leaves [(5400, 19600, NaN, 15325)]. *)
Theorem setters_accept_NaN n s f :
  (forall s1,
     asked n (beforeFromChange s) s nan (toValue s) = (s1, Returns This) ->
     vetoes (beforeFromChange s) nan (toValue s) = false ->
     setFrom (S n) s nan f = (fire f (set_fromValue nan s1), Returns This))
  /\ (forall s1,
        asked n (beforeToChange s) s (fromValue s) nan = (s1, Returns This) ->
        vetoes (beforeToChange s) (fromValue s) nan = false ->
        setTo (S n) s nan f = (fire f (set_toValue nan s1), Returns This))
  /\ (beforeFromChange s = None ->
      snd (setFrom (S n) s nan f) = Returns This
      /\ getFrom (fst (setFrom (S n) s nan f)) = nan
      /\ ~ ordered (fst (setFrom (S n) s nan f)))
  /\ setFrom 1 example5 nan true
     = (fire true (set_fromValue nan example5), Returns This)
  /\ values (fst (setFrom 1 example5 nan true)) = (5400, 19600, nan, 15325).
Proof.
  assert (F : forall s1,
    asked n (beforeFromChange s) s nan (toValue s) = (s1, Returns This) ->
    vetoes (beforeFromChange s) nan (toValue s) = false ->
    setFrom (S n) s nan f = (fire f (set_fromValue nan s1), Returns This)).
  { intros s1 A V. rewrite (setFrom_checked n s nan f s1); try assumption.
    - now rewrite V.
    - float_order.
    - float_order.
    - float_order. }
  split; [exact F|]. split; [|split; [|split; reflexivity]].
  - intros s1 A V. rewrite (setTo_checked n s nan f s1); try assumption.
    + now rewrite V.
    + float_order.
    + float_order.
    + float_order.
    + float_order.
  - intros H.
    assert (E : setFrom (S n) s nan f
                = (fire f (set_fromValue nan s), Returns This)).
    { apply F; unfold asked, vetoes; now rewrite H. }
    rewrite E. cbn [fst snd]. unfold getFrom.
    destruct (fire_fields f (set_fromValue nan s)) as (V & _).
    unfold values in V. injection V as V1 V2 V3 V4.
    cbn [set_fromValue set_values fromValue] in V3.
    split; [reflexivity|]. split; [exact V3|].
    intros (_ & K & _). rewrite V3 in K. revert K. clear. float_order.
Qed.

Lemma setters_accept_NaN_witness :
  setFrom 1 (sample (Some (fun _ _ => {| calls := []; answer := true |})) None
               20 80) nan true
  = (fire true
       (set_fromValue nan
          (sample (Some (fun _ _ => {| calls := []; answer := true |})) None
             20 80)),
     Returns This).
Proof.
  apply (proj1 (setters_accept_NaN 0
           (sample (Some (fun _ _ => {| calls := []; answer := true |})) None
              20 80) true));
    reflexivity.
Defined.

(** The merged state [update] validates. *)
Definition merged (s : DoubleRange) (o : UpdateOptions)
    : float * float * float * float :=
  (or_current (o_min o) (minValue s), or_current (o_max o) (maxValue s),
   or_current (o_from o) (fromValue s), or_current (o_to o) (toValue s)).

(** Four values satisfy the ordering constraints. *)
Definition valid (m : float * float * float * float) : Prop :=
  let '(mn, mx, f, t) := m in
  mn < mx /\ mn <= f /\ f <= mx /\ mn <= t /\ t <= mx /\ f < t.

(** None of four values is [NaN]. *)
Definition numbers (m : float * float * float * float) : Prop :=
  let '(mn, mx, f, t) := m in
  is_nan mn = false /\ is_nan mx = false
  /\ is_nan f = false /\ is_nan t = false.

(** X21.  [update] is all or nothing on numbers: when none of the merged
    values (missing keys taken from the instance) is [NaN], the call throws
    a [RangeError] with the instance as it was if the merged values break
    [min < max], [min <= from <= max], [min <= to <= max] or [from < to],
    and otherwise returns with exactly the four merged values written. *)
Theorem update_atomic_on_numbers s o f :
  numbers (merged s o) ->
  (~ valid (merged s o) /\ update s o f = Throw RangeError s)
  \/ (valid (merged s o)
      /\ exists s', update s o f = Return s' /\ values s' = merged s o).
Proof.
  unfold numbers, valid, merged, update.
  set (mn := or_current (o_min o) (minValue s)).
  set (mx := or_current (o_max o) (maxValue s)).
  set (fr := or_current (o_from o) (fromValue s)).
  set (t := or_current (o_to o) (toValue s)).
  intros (N1 & N2 & N3 & N4).
  destruct (mn >=? mx) eqn:C1.
  { left. split; [|reflexivity]. intros (H & _). revert H.
    float_order using C1. }
  destruct (fr <? mn) eqn:C2.
  { left. split; [|reflexivity]. intros (_ & H & _). revert H.
    float_order using C2. }
  destruct (fr >? mx) eqn:C3.
  { left. split; [|reflexivity]. intros (_ & _ & H & _). revert H.
    float_order using C3. }
  destruct (t <? mn) eqn:C4.
  { left. split; [|reflexivity]. intros (_ & _ & _ & H & _). revert H.
    float_order using C4. }
  destruct (t >? mx) eqn:C5.
  { left. split; [|reflexivity]. intros (_ & _ & _ & _ & H & _). revert H.
    float_order using C5. }
  destruct (fr >=? t) eqn:C6.
  { left. split; [|reflexivity]. intros (_ & _ & _ & _ & _ & H). revert H.
    float_order using C6. }
  right. cbn [orb]. split.
  - split; [|split; [|split; [|split; [|split]]]].
    + float_order using C1 N1 N2.
    + float_order using C2 N1 N3.
    + float_order using C3 N2 N3.
    + float_order using C4 N1 N4.
    + float_order using C5 N2 N4.
    + float_order using C6 N3 N4.
  - eexists. split; [reflexivity|].
    destruct (fire_fields f (set_values mn mx fr t s)) as (V & _). exact V.
Qed.

Lemma update_atomic_on_numbers_witness :
  (~ valid (merged (sample None None 5 80) (bounds 10 90))
   /\ update (sample None None 5 80) (bounds 10 90) true
      = Throw RangeError (sample None None 5 80))
  \/ (valid (merged (sample None None 5 80) (bounds 10 90))
      /\ exists s', update (sample None None 5 80) (bounds 10 90) true = Return s'
           /\ values s' = merged (sample None None 5 80) (bounds 10 90)).
Proof.
  apply (update_atomic_on_numbers (sample None None 5 80) (bounds 10 90) true).
  repeat split.
Defined.

(** ** The ordering invariant under the mutators *)

Lemma ordered_by_values s s' : values s' = values s -> ordered s -> ordered s'.
Proof.
  unfold values, ordered. intros [= -> -> -> ->]. exact (fun H => H).
Qed.

Lemma setFrom_ordered fuel s v f :
  ordered s -> is_nan v = false -> is_nan (toValue s - step s) = false ->
  silent (beforeFromChange s) ->
  ordered (fst (setFrom fuel s v f)).
Proof.
  intros O Hv Hw Hh.
  destruct (setFrom_silent_shape fuel s v f Hh)
    as [->|(w & b & -> & A1 & A2 & A3)]; [exact O|].
  destruct O as (Hmm & Hmf & Hft & Htm).
  assert (Nw : is_nan w = false) by (destruct A3 as [[-> _]|[-> _]]; assumption).
  destruct (fire_fields b (set_fromValue w s)) as (V & _).
  apply (ordered_by_values (set_fromValue w s)); [exact V|].
  unfold ordered. cbn [set_fromValue set_values minValue maxValue fromValue toValue].
  split; [exact Hmm|]. split; [|split; [|exact Htm]].
  - float_order using A1 Nw Hmm.
  - float_order using A2 Nw Hft.
Qed.

Lemma setTo_ordered fuel s v f :
  ordered s -> is_nan v = false -> is_nan (fromValue s + step s) = false ->
  silent (beforeToChange s) ->
  ordered (fst (setTo fuel s v f)).
Proof.
  intros O Hv Hw Hh.
  destruct (setTo_silent_shape fuel s v f Hh)
    as [->|(w & b & -> & A1 & A2 & A3)]; [exact O|].
  destruct O as (Hmm & Hmf & Hft & Htm).
  assert (Nw : is_nan w = false) by (destruct A3 as [[-> _]|[-> _]]; assumption).
  destruct (fire_fields b (set_toValue w s)) as (V & _).
  apply (ordered_by_values (set_toValue w s)); [exact V|].
  unfold ordered. cbn [set_toValue set_values minValue maxValue fromValue toValue].
  split; [exact Hmm|]. split; [exact Hmf|]. split.
  - float_order using A2 Nw Hft.
  - float_order using A1 Nw Hmm.
Qed.

(** X18.  On numbers the mutators keep the ordering invariant [min < max],
    [min <= from < to <= max].  [setMin(v)] and [setMax(v)] keep it for
    every [v] other than [NaN], whether they return or throw, and
    [update(o)] when none of the merged values is [NaN].  [setFrom(v)] and
    [setTo(v)] keep it for every [v] other than [NaN], whether they return
    or the call stack runs out, when the hook does not call back and the
    corrective value ([to - step], [from + step]) is not [NaN]; so does a
    click on the track whose candidate is not [NaN]. *)
Theorem mutators_keep_ordering s :
  ordered s ->
  (forall v f, is_nan v = false ->
     ordered (state_of (setMin s v f)) /\ ordered (state_of (setMax s v f)))
  /\ (forall o f, numbers (merged s o) -> ordered (state_of (update s o f)))
  /\ (forall fuel v f,
        is_nan v = false -> is_nan (toValue s - step s) = false ->
        silent (beforeFromChange s) ->
        ordered (fst (setFrom fuel s v f)))
  /\ (forall fuel v f,
        is_nan v = false -> is_nan (fromValue s + step s) = false ->
        silent (beforeToChange s) ->
        ordered (fst (setTo fuel s v f)))
  /\ (forall fuel r x,
        trackRect s = Some r -> is_nan (click_candidate s r x) = false ->
        is_nan (toValue s - step s) = false ->
        is_nan (fromValue s + step s) = false ->
        silent (beforeFromChange s) -> silent (beforeToChange s) ->
        ordered (fst (trackClicked fuel s x))).
Proof.
  intros O. split; [|split; [|split; [|split]]].
  - intros v f Hv. destruct O as (Hmm & Hmf & Hft & Htm).
    unfold setMin, setMax. split.
    + destruct (v >=? maxValue s) eqn:C1; [repeat split; assumption|].
      destruct (v >? fromValue s) eqn:C2; [repeat split; assumption|].
      cbn [state_of].
      destruct (fire_fields f (set_minValue v s)) as (V & _).
      apply (ordered_by_values (set_minValue v s)); [exact V|].
      unfold ordered.
      cbn [set_minValue set_values minValue maxValue fromValue toValue].
      split; [|split; [|split; assumption]].
      * float_order using C1 Hv Hmm.
      * float_order using C2 Hv Hmf.
    + destruct (v <=? minValue s) eqn:C1; [repeat split; assumption|].
      destruct (v <? toValue s) eqn:C2; [repeat split; assumption|].
      cbn [state_of].
      destruct (fire_fields f (set_maxValue v s)) as (V & _).
      apply (ordered_by_values (set_maxValue v s)); [exact V|].
      unfold ordered.
      cbn [set_maxValue set_values minValue maxValue fromValue toValue].
      split; [|split; [exact Hmf|split; [exact Hft|]]].
      * float_order using C1 Hv Hmm.
      * float_order using C2 Hv Htm.
  - intros o f (N1 & N2 & N3 & N4). unfold update. unfold merged in *.
    set (mn := or_current (o_min o) (minValue s)) in *.
    set (mx := or_current (o_max o) (maxValue s)) in *.
    set (fr := or_current (o_from o) (fromValue s)) in *.
    set (t := or_current (o_to o) (toValue s)) in *.
    destruct (mn >=? mx) eqn:C1; [exact O|].
    destruct (fr <? mn) eqn:C2; [exact O|].
    destruct (fr >? mx) eqn:C3; [exact O|].
    destruct (t <? mn) eqn:C4; [exact O|].
    destruct (t >? mx) eqn:C5; [exact O|].
    destruct (fr >=? t) eqn:C6; [exact O|].
    cbn [orb state_of].
    destruct (fire_fields f (set_values mn mx fr t s)) as (V & _).
    apply (ordered_by_values (set_values mn mx fr t s)); [exact V|].
    unfold ordered.
    cbn [set_values minValue maxValue fromValue toValue].
    split; [|split; [|split]].
    + float_order using C1 N1 N2.
    + float_order using C2 N1 N3.
    + float_order using C6 N3 N4.
    + float_order using C5 N2 N4.
  - intros fuel v f. now apply setFrom_ordered.
  - intros fuel v f. now apply setTo_ordered.
  - intros fuel r x Hr Nc N1 N2 H1 H2. unfold trackClicked. rewrite Hr.
    destruct (_ <? _).
    + pose proof (setFrom_ordered fuel s (click_candidate s r x) true
                    O Nc N1 H1) as K.
      now destruct (setFrom fuel s _ true) as [s1 []].
    + pose proof (setTo_ordered fuel s (click_candidate s r x) true
                    O Nc N2 H2) as K.
      now destruct (setTo fuel s _ true) as [s1 []].
Qed.

Lemma mutators_keep_ordering_witness :
  ordered (state_of (setMin (sample None None 20 80) 10 true))
  /\ ordered (state_of (setMax (sample None None 20 80) 10 true)).
Proof.
  apply (proj1 (mutators_keep_ordering (sample None None 20 80)
                  ltac:(repeat split))).
  reflexivity.
Defined.

End Js.
